(** * JournalAnalyzerAI: the line filter, the chunker and the two-pass
      orchestration of [app.py]

    A shallow embedding of [app.py].  Python [str] values are sequences of
    Unicode code points and are modelled as [list N]; Python [int] values are
    unbounded and are modelled as [Z]; the [set] of kept indices is a
    [gset Z]; code that can raise returns [option]; the script itself runs in
    a small monad that records the notices shown and the service calls made. *)

From Stdlib Require Import ZArith NArith Ascii String DecimalString.
From stdpp Require Import base numbers option list list_numbers sorting gmap sets.

Local Open Scope Z_scope.

(** ** Python strings *)

(** A [str] is the list of its code points. *)
Abbreviation pystr := (list N).

(** A source literal, written as a Rocq string, as a [str]. *)
Definition lit (s : string) : pystr :=
  N_of_ascii <$> list_ascii_of_string s.

(** [len(x)] as a Python integer. *)
Definition py_len {A} (l : list A) : Z := Z.of_nat (length l).

(** [str(i)] for an integer: its decimal digits, with a sign when negative. *)
Definition py_str_int (i : Z) : pystr :=
  lit (NilZero.string_of_int (Z.to_int i)).

(** [str.isspace] on one character: the code points CPython's
    [_PyUnicode_IsWhitespace] accepts. *)
Definition is_space (c : N) : bool :=
  ((9 <=? c) && (c <=? 13) || (28 <=? c) && (c <=? 32) || (c =? 133)
   || (c =? 160) || (c =? 5760) || (8192 <=? c) && (c <=? 8202)
   || (c =? 8232) || (c =? 8233) || (c =? 8239) || (c =? 8287)
   || (c =? 12288))%N.

(** Drops the longest prefix of characters satisfying [p]. *)
Fixpoint lstrip_with (p : N → bool) (s : pystr) : pystr :=
  match s with
  | [] => []
  | c :: s' => if p c then lstrip_with p s' else s
  end.

(** Drops the longest suffix of characters satisfying [p]. *)
Definition rstrip_with (p : N → bool) (s : pystr) : pystr :=
  reverse (lstrip_with p (reverse s)).

(** [s.strip()] *)
Definition strip (s : pystr) : pystr :=
  rstrip_with is_space (lstrip_with is_space s).

(** [s.rstrip(chr(10))]: trailing newline characters removed. *)
Definition rstrip_nl (s : pystr) : pystr :=
  rstrip_with (N.eqb 10) s.

(** [sep.join(parts)] *)
Fixpoint join (sep : pystr) (parts : list pystr) : pystr :=
  match parts with
  | [] => []
  | p :: ps =>
    match ps with
    | [] => p
    | _ :: _ => p ++ sep ++ join sep ps
    end
  end.

(** [s.split(sep)] for a one-character separator; [cur] holds the field
    being read, in reverse. *)
Fixpoint split_on (sep : N) (s : pystr) (cur : pystr) : list pystr :=
  match s with
  | [] => [reverse cur]
  | c :: s' =>
    if (c =? sep)%N then reverse cur :: split_on sep s' []
    else split_on sep s' (c :: cur)
  end.

(** The characters [str.splitlines] breaks lines at (a return followed by a
    newline is one break). *)
Definition is_linebreak (c : N) : bool :=
  ((10 <=? c) && (c <=? 13) || (28 <=? c) && (c <=? 30) || (c =? 133)
   || (c =? 8232) || (c =? 8233))%N.

(** [s.splitlines()]; [cur] holds the line being read, in reverse. *)
Fixpoint splitlines_from (s : pystr) (cur : pystr) : list pystr :=
  match s with
  | [] => match cur with [] => [] | _ :: _ => [reverse cur] end
  | c :: s' =>
    if (c =? 13)%N then
      match s' with
      | d :: s'' =>
        if (d =? 10)%N then reverse cur :: splitlines_from s'' []
        else reverse cur :: splitlines_from s' []
      | [] => reverse cur :: splitlines_from s' []
      end
    else if is_linebreak c then reverse cur :: splitlines_from s' []
    else splitlines_from s' (c :: cur)
  end.

Definition splitlines (s : pystr) : list pystr := splitlines_from s [].

(** ** Python sequences *)

(** A slice bound [i] brought into [0 .. n], negative bounds counting from
    the end. *)
Definition clamp_bound (n i : Z) : Z :=
  if i <? 0 then Z.max 0 (n + i) else Z.min i n.

(** [l[lo:hi]] *)
Definition py_slice {A} (l : list A) (lo hi : Z) : list A :=
  let a := clamp_bound (py_len l) lo in
  let b := clamp_bound (py_len l) hi in
  take (Z.to_nat (b - a)) (drop (Z.to_nat a) l).

(** [l[:hi]] *)
Definition py_slice_to {A} (l : list A) (hi : Z) : list A :=
  py_slice l 0 hi.

(** [l[i]]: negative indices count from the end, [None] is [IndexError]. *)
Definition py_getitem {A} (l : list A) (i : Z) : option A :=
  if i <? 0
  then (if py_len l + i <? 0 then None else l !! Z.to_nat (py_len l + i))
  else l !! Z.to_nat i.

(** [range(start, stop, step)] for a positive [step]; its length is
    [(stop - start + step - 1) // step] when [start < stop], else [0]. *)
Definition py_range3 (start stop step : Z) : list Z :=
  let n := if start <? stop then (stop - start + step - 1) / step else 0 in
  (λ j, start + j * step) <$> seqZ 0 n.

(** [range(start, stop)] *)
Definition py_range (start stop : Z) : list Z :=
  seqZ start (stop - start).

(** [enumerate(l, start)] *)
Fixpoint py_enumerate {A} (start : Z) (l : list A) : list (Z * A) :=
  match l with
  | [] => []
  | x :: l' => (start, x) :: py_enumerate (start + 1) l'
  end.

(** [sorted(s)] for a set of integers. *)
Definition py_sorted (s : gset Z) : list Z :=
  merge_sort Z.le (elements s).

(** ** The fragment of the [re] module the filter relies on

    Patterns are sequences of single-character atoms, each with an optional
    repetition.  [compile] returns [None] where [re.compile] raises or where
    the pattern leaves this fragment (groups, classes, anchors, alternation,
    counted and lazy repetition). *)
Module Re.

Inductive atom : Type :=
| Lit (c : N)   (* this character *)
| Any.          (* a dot: any character but a newline *)

Inductive quant : Type := One | Opt | Star | Plus.

Record item : Type := Item { item_atom : atom; item_quant : quant }.

(** A compiled pattern: its items and whether [re.IGNORECASE] is set. *)
Record pattern : Type :=
  Pattern { pat_items : list item; pat_ignorecase : bool }.

(** The characters [re.escape] protects: the punctuation below, then tab,
    newline, return, VT and FF. *)
Definition special_chars : list N :=
  lit "()[]{}?*+-|^$\.&~# " ++ [9; 10; 13; 11; 12]%N.

(** [re.escape(s)]: a backslash before every special character. *)
Definition escape (s : pystr) : pystr :=
  s ≫= λ c, if bool_decide (c ∈ special_chars) then [92%N; c] else [c].

(** The characters the parser reads as syntax when they are not escaped. *)
Definition syntax_chars : list N := lit ".\[{()*+?^$|".

Definition is_ascii_alnum (c : N) : bool :=
  ((48 <=? c) && (c <=? 57) || (65 <=? c) && (c <=? 90)
   || (97 <=? c) && (c <=? 122))%N.

Definition quant_of (c : N) : option quant :=
  if (c =? 42)%N then Some Star
  else if (c =? 43)%N then Some Plus
  else if (c =? 63)%N then Some Opt
  else None.

(** The parser, left to right, with the items read so far in reverse.
    A backslash makes the next character literal unless that character is
    an ASCII letter or digit (a class or a back-reference, outside the
    fragment); a repetition applies to the item before it. *)
Fixpoint parse (s : pystr) (acc : list item) : option (list item) :=
  match s with
  | [] => Some (reverse acc)
  | c :: rest =>
    if (c =? 92)%N then
      match rest with
      | [] => None
      | d :: rest' =>
        if is_ascii_alnum d then None
        else parse rest' (Item (Lit d) One :: acc)
      end
    else if (c =? 46)%N then parse rest (Item Any One :: acc)
    else match quant_of c with
    | Some q =>
      match acc with
      | Item a One :: acc' => parse rest (Item a q :: acc')
      | _ => None
      end
    | None =>
      if bool_decide (c ∈ syntax_chars) then None
      else parse rest (Item (Lit c) One :: acc)
    end
  end.

(** [re.compile(s, re.IGNORECASE)] when [ignorecase], else [re.compile(s)]. *)
Definition compile (s : pystr) (ignorecase : bool) : option pattern :=
  items ← parse s []; Some (Pattern items ignorecase).

Section matching.

(** [ieq p c]: under [re.IGNORECASE], pattern character [p] matches text
    character [c].  It is decided by the Unicode case tables of the
    interpreter, which are a parameter here. *)
Variable ieq : N → N → bool.

Definition atom_matches (ic : bool) (a : atom) (c : N) : bool :=
  match a with
  | Lit p => if ic then ieq p c else (p =? c)%N
  | Any => negb (c =? 10)%N
  end.

(** Does some prefix of the text match the items? *)
Fixpoint match_here (ic : bool) (items : list item) : pystr → bool :=
  match items with
  | [] => λ _, true
  | Item a q :: items' =>
    let k := match_here ic items' in
    let one := λ (next : pystr → bool) (s : pystr),
      match s with
      | [] => false
      | c :: s' => atom_matches ic a c && next s'
      end in
    let star := fix star (s : pystr) : bool :=
      k s || match s with
             | [] => false
             | c :: s' => atom_matches ic a c && star s'
             end in
    match q with
    | One => one k
    | Opt => λ s, one k s || k s
    | Star => star
    | Plus => one star
    end
  end.

(** [p.search(s)] as a truth value: a match starting at some position. *)
Fixpoint search_items (ic : bool) (items : list item) (s : pystr) : bool :=
  match_here ic items s
  || match s with
     | [] => false
     | _ :: s' => search_items ic items s'
     end.

Definition search (p : pattern) (s : pystr) : bool :=
  search_items (pat_ignorecase p) (pat_items p) s.

End matching.

(** The items of a pattern that matches [tok] and nothing else: one plain
    literal per character. *)
Definition literal_items (tok : pystr) : list item :=
  (λ c, Item (Lit c) One) <$> tok.

End Re.

(** ** [str.format] with keyword arguments

    Replacement fields that are plain names are filled in; a field that
    carries a conversion, a format specification or an attribute or index
    lookup is reported as such and is not interpreted. *)

(** What formatting a template comes to. *)
Inductive formatted : Type :=
| Formatted (s : pystr)   (* the text produced *)
| FormatRaises            (* [str.format] raises: a lone brace, a name that
                             is not among the keyword arguments *)
| FieldNotPlain.          (* a field with [!], [:], [.] or a bracket *)

(** The value bound to [name] among the keyword arguments. *)
Fixpoint lookup_field (name : pystr) (fields : list (pystr * pystr))
  : option pystr :=
  match fields with
  | [] => None
  | (k, v) :: fields' =>
    if bool_decide (k = name) then Some v else lookup_field name fields'
  end.

(** The text [pre] put before what the rest of the template comes to. *)
Definition formatted_after (pre : pystr) (rest : formatted) : formatted :=
  match rest with
  | Formatted s => Formatted (pre ++ s)
  | FormatRaises => FormatRaises
  | FieldNotPlain => FieldNotPlain
  end.

(** The characters that end the name of a field without closing the field:
    [!], [:], [.] and the opening bracket. *)
Definition ends_plain_name (c : N) : bool :=
  ((c =? 33) || (c =? 58) || (c =? 46) || (c =? 91))%N.

(** The template from left to right; [field] is [None] outside braces and
    [Some name] (reversed) inside.  The keyword arguments have names that
    are neither empty nor numbers, so an empty or numeric field name, which
    is positional, is not among them and raises like any unknown name. *)
Fixpoint format_from (s : pystr) (field : option pystr)
    (fields : list (pystr * pystr)) : formatted :=
  match s, field with
  | [], None => Formatted []
  | [], Some _ => FormatRaises
  | c :: s', Some name =>
    if (c =? 125)%N then
      match lookup_field (reverse name) fields with
      | Some v => formatted_after v (format_from s' None fields)
      | None => FormatRaises
      end
    else if ends_plain_name c then FieldNotPlain
    else if (c =? 123)%N then FormatRaises
    else format_from s' (Some (c :: name)) fields
  | c :: s', None =>
    if (c =? 123)%N then
      match s' with
      | d :: s'' =>
        if (d =? 123)%N
        then formatted_after [123%N] (format_from s'' None fields)
        else format_from s' (Some []) fields
      | [] => FormatRaises
      end
    else if (c =? 125)%N then
      match s' with
      | d :: s'' =>
        if (d =? 125)%N
        then formatted_after [125%N] (format_from s'' None fields)
        else FormatRaises
      | [] => FormatRaises
      end
    else formatted_after [c] (format_from s' None fields)
  end.

(** [template.format] with the keyword arguments [fields]. *)
Definition py_format (template : pystr) (fields : list (pystr * pystr))
  : formatted :=
  format_from template None fields.

(** ** Prompt templates *)

Definition SYNTHESIS_PROMPT : pystr := lit
"You are consolidating multiple chunk-level analyses of the same incident.
Combine them into ONE coherent incident report.

Requirements:
- Merge duplicated information.
- Resolve ordering into a single timeline per service when possible.
- Keep evidence-based statements.
- Clearly label hypotheses.
- Produce a Jira-ready final summary.

TARGET_SERVICES = {target_services}

CHUNK ANALYSES:
{chunk_analyses}
".

(** ** Utilities *)

(** [parse_target_services(raw)] *)
Definition parse_target_services (raw : pystr) : list pystr :=
  let parts := strip <$> split_on 44 raw [] in
  filter (λ p, p ≠ []) parts.

(** [chunk_text_by_chars(text, chunk_size)] *)
Definition chunk_text_by_chars (text : pystr) (chunk_size : Z) : list pystr :=
  let text := strip text in
  match text with
  | [] => []
  | _ :: _ =>
    if chunk_size <=? 0 then [text]
    else (λ i, py_slice text i (i + chunk_size))
           <$> py_range3 0 (py_len text) chunk_size
  end.

Section filter.

Variable ieq : N → N → bool.

(** [any(p.search(line) for p in patterns)] *)
Definition any_search (patterns : list Re.pattern) (line : pystr) : bool :=
  existsb (λ p, Re.search ieq p line) patterns.

(** The loop that collects [hit_idxs]. *)
Definition collect_hits (patterns : list Re.pattern) (lines : list pystr)
  : list Z :=
  foldl (λ hit_idxs '(i, line),
           if any_search patterns line then hit_idxs ++ [i] else hit_idxs)
        [] (py_enumerate 0 lines).

(** The loops that build [keep], for [n = len(lines)]. *)
Definition expand_hits (n : Z) (hit_idxs : list Z) (context : Z) : gset Z :=
  foldl (λ keep i,
           let start := Z.max 0 (i - context) in
           let end_ := Z.min (n - 1) (i + context) in
           foldl (λ keep j, {[j]} ∪ keep) keep (py_range start (end_ + 1)))
        ∅ hit_idxs.

(** [patterns], or [None] if [re.compile] raises. *)
Definition compile_tokens (target_services : list pystr)
  : option (list Re.pattern) :=
  mapM (λ svc, Re.compile (Re.escape svc) true) target_services.

(** The values [hit_idxs] and [keep] take in a call that gets past the
    guard on [target_services]. *)
Definition hit_index_list (lines target_services : list pystr)
  : option (list Z) :=
  patterns ← compile_tokens target_services;
  Some (collect_hits patterns lines).

Definition keep_index_set (lines target_services : list pystr) (context : Z)
  : option (gset Z) :=
  hit_idxs ← hit_index_list lines target_services;
  Some (expand_hits (py_len lines) hit_idxs context).

(** [[lines[i].rstrip(chr(10)) for i in kept_sorted]] *)
Definition pick_lines (lines : list pystr) (kept_sorted : list Z)
  : option (list pystr) :=
  mapM (λ i, rstrip_nl <$> py_getitem lines i) kept_sorted.

(** [filter_lines_with_context(lines, target_services, context, max_lines)];
    [None] if an exception escapes. *)
Definition filter_lines_with_context (lines target_services : list pystr)
    (context max_lines : Z) : option (list pystr * Z) :=
  match target_services with
  | [] => Some ([], 0)
  | _ :: _ =>
    patterns ← compile_tokens target_services;
    let hit_idxs := collect_hits patterns lines in
    let keep := expand_hits (py_len lines) hit_idxs context in
    let kept_sorted := py_sorted keep in
    filtered ← pick_lines lines kept_sorted;
    let filtered :=
      if negb (max_lines =? 0) && (max_lines <? py_len filtered)
      then py_slice_to filtered max_lines
      else filtered in
    Some (filtered, py_len hit_idxs)
  end.

(** The value of [filtered] before the safety cap. *)
Definition filtered_uncapped (lines target_services : list pystr)
    (context : Z) : option (list pystr) :=
  keep ← keep_index_set lines target_services context;
  pick_lines lines (py_sorted keep).

(** [tok] occurs in [line] as a literal substring, up to case: some
    contiguous span of [line] matches [tok] character by character. *)
Definition ci_substring (tok line : pystr) : Prop :=
  ∃ pre mid post,
    line = pre ++ mid ++ post ∧ Forall2 (λ p c, ieq p c = true) tok mid.

(** The clamped window around hit [h], for [n] lines. *)
Definition in_window (n radius h j : Z) : Prop :=
  Z.max 0 (h - radius) ≤ j ≤ Z.min (n - 1) (h + radius).

(** [out] is line [i] of [lines] without its trailing newlines. *)
Definition picked (lines : list pystr) (i : Z) (out : pystr) : Prop :=
  0 ≤ i ∧ ∃ line, lines !! Z.to_nat i = Some line ∧ out = rstrip_nl line.

End filter.

(** ** The script *)

(** The messages the script shows before it stops. *)
Inductive notice : Type :=
| InfoUploadFile          (* Upload a journalctl file to begin. *)
| ErrorNoApiKey           (* No OpenAI API key found. ... *)
| ErrorNoTargetServices   (* Please provide at least one target service ... *)
| WarningNoRelevantLines. (* No relevant lines were found ... *)

Inductive event : Type :=
| Shown (n : notice)
| Called (model prompt : pystr).   (* [call_openai_responses] *)

(** Why a run ends early: [st.stop()] or an uncaught exception. *)
Inductive halt : Type := Stop | Raise.

(** A step of the script: from the events so far to a result, or a halt,
    and the events after it. *)
Definition script (A : Type) : Type := list event → (halt + A) * list event.

Definition script_ret {A} (x : A) : script A := λ log, (inr x, log).

Definition script_bind {A B} (m : script A) (k : A → script B) : script B :=
  λ log,
    match m log with
    | (inl h, log') => (inl h, log')
    | (inr x, log') => k x log'
    end.

Notation "x ←' m ; k" := (script_bind m (λ x, k))
  (at level 20, m at level 100, k at level 200, only parsing, right associativity).
Notation "m ;;' k" := (script_bind m (λ _, k))
  (at level 100, k at level 200, only parsing, right associativity).

Definition show (n : notice) : script unit := λ log, (inr tt, log ++ [Shown n]).

(** [st.stop()] *)
Definition st_stop {A} : script A := λ log, (inl Stop, log).

(** A value that may have raised. *)
Definition or_raise {A} (o : option A) : script A :=
  λ log, match o with Some x => (inr x, log) | None => (inl Raise, log) end.

(** What the user entered in the sidebar and the page.  The temperature is
    passed to the service unchanged and is left out. *)
Record inputs : Type := Inputs {
  env_key : pystr;
  ui_key : pystr;
  model : pystr;
  raw_services : pystr;
  context : Z;
  max_filtered_lines : Z;
  chunk_size : Z;
  prompt_template : pystr;
  uploaded : option pystr;   (* the decoded text of the uploaded file *)
  analyze : bool
}.

(** What a completed run leaves. *)
Record report : Type := Report {
  chunks : list pystr;
  chunk_outputs : list pystr;
  synth_prompt : pystr;
  final_report : pystr
}.

Section app.

Variable ieq : N → N → bool.

(** [repr] of a [str], decided by the interpreter's tables of printable
    characters, a parameter here. *)
Variable repr_str : pystr → pystr.

(** [prompt_template.format(target_services=..., log_text=chunk)] for the
    template the operator typed, the token list and a chunk: the prompt, or
    [None] when formatting raises.  The template may use all of the format
    mini-language of the interpreter, which is a parameter here. *)
Variable format_prompt : pystr → list pystr → pystr → option pystr.

(** The external service: from the events so far and the model and prompt
    sent, the text it returns, or [None] when the call raises. *)
Variable service : list event → pystr → pystr → option pystr.

(** [str(l)] for a list of [str]. *)
Definition py_str_list (l : list pystr) : pystr :=
  lit "[" ++ join (lit ", ") (repr_str <$> l) ++ lit "]".

(** [call_openai_responses(client, model, temperature, prompt)] *)
Definition call_openai_responses (model prompt : pystr) : script pystr :=
  λ log,
    match service log model prompt with
    | Some out => (inr out, log ++ [Called model prompt])
    | None => (inl Raise, log ++ [Called model prompt])
    end.

(** Pass 1: the loop over [enumerate(chunks, start=1)], with the outputs
    collected so far. *)
Fixpoint pass1 (template : pystr) (target_services : list pystr)
    (model : pystr) (todo : list (Z * pystr)) (chunk_outputs : list pystr)
  : script (list pystr) :=
  match todo with
  | [] => script_ret chunk_outputs
  | (idx, chunk) :: todo' =>
    prompt ←' or_raise (format_prompt template target_services chunk);
    out ←' call_openai_responses model prompt;
    pass1 template target_services model todo' (chunk_outputs ++ [strip out])
  end.

(** The separator between two chunk analyses. *)
Definition SEPARATOR : pystr := [10; 10; 45; 45; 45; 10; 10]%N.

(** The f-string of one chunk analysis, for [i] in [range(len(chunk_outputs))]. *)
Definition labeled (chunk_outputs : list pystr) (i : Z) : option pystr :=
  out ← py_getitem chunk_outputs i;
  Some (lit "Chunk " ++ py_str_int (i + 1) ++ lit " analysis:" ++ [10%N] ++ out).

(** [joined] *)
Definition joined (chunk_outputs : list pystr) : option pystr :=
  join SEPARATOR <$>
    mapM (labeled chunk_outputs) (py_range 0 (py_len chunk_outputs)).

(** [SYNTHESIS_PROMPT.format(target_services=..., chunk_analyses=joined)].
    Both fields of this template are plain names. *)
Definition synthesis_prompt (target_services chunk_outputs : list pystr)
  : option pystr :=
  joined ← joined chunk_outputs;
  match py_format SYNTHESIS_PROMPT
          [(lit "target_services", py_str_list target_services);
           (lit "chunk_analyses", joined)] with
  | Formatted prompt => Some prompt
  | FormatRaises | FieldNotPlain => None
  end.

(** [api_key]: the key typed in the sidebar, or else the one of the
    environment. *)
Definition api_key_of (inp : inputs) : pystr :=
  match strip (ui_key inp) with
  | [] => strip (env_key inp)
  | k => k
  end.

(** The script, top to bottom. *)
Definition run (inp : inputs) : script report :=
  let api_key := api_key_of inp in
  let target_services := parse_target_services (raw_services inp) in
  match uploaded inp with
  | None => show InfoUploadFile ;;' st_stop
  | Some text =>
    let lines := splitlines text in
    res ←'
      or_raise (filter_lines_with_context ieq lines target_services
                  (context inp) (max_filtered_lines inp));
    let filtered_lines := res.1 in
    (if bool_decide (api_key = []) then show ErrorNoApiKey ;;' st_stop
     else script_ret tt) ;;'
    (if bool_decide (target_services = [])
     then show ErrorNoTargetServices ;;' st_stop
     else script_ret tt) ;;'
    (if analyze inp then script_ret tt else st_stop) ;;'
    let filtered_text := strip (join [10%N] filtered_lines) in
    (if bool_decide (filtered_text = [])
     then show WarningNoRelevantLines ;;' st_stop
     else script_ret tt) ;;'
    let model := strip (model inp) in
    let chunks := chunk_text_by_chars filtered_text (chunk_size inp) in
    chunk_outputs ←'
      pass1 (prompt_template inp) target_services model
            (py_enumerate 1 chunks) [];
    synth_prompt ←' or_raise (synthesis_prompt target_services chunk_outputs);
    out ←' call_openai_responses model synth_prompt;
    script_ret (Report chunks chunk_outputs synth_prompt (strip out))
  end.

(** [out] is the trimmed answer of the service to the Pass 1 prompt of
    [chunk]. *)
Definition answers (template : pystr) (target_services : list pystr)
    (model chunk out : pystr) : Prop :=
  ∃ prompt log response,
    format_prompt template target_services chunk = Some prompt
    ∧ service log model prompt = Some response
    ∧ out = strip response.

(** The value of [filtered_text] once a file is uploaded. *)
Definition filtered_text_of (inp : inputs) : option pystr :=
  text ← uploaded inp;
  res ← filter_lines_with_context ieq (splitlines text)
           (parse_target_services (raw_services inp))
           (context inp) (max_filtered_lines inp);
  Some (strip (join [10%N] res.1)).

End app.

(** The labeled block of the [i]-th chunk analysis, counting from one. *)
Definition chunk_block (i : Z) (result : pystr) : pystr :=
  lit "Chunk " ++ py_str_int i ++ lit " analysis:" ++ [10%N] ++ result.

(** The labeled blocks of the results, numbered from [i] on, in order. *)
Fixpoint blocks_from (i : Z) (results : list pystr) : list pystr :=
  match results with
  | [] => []
  | r :: results' => chunk_block i r :: blocks_from (i + 1) results'
  end.

(** The text of [SYNTHESIS_PROMPT] before its first field and between its
    two fields; after the second field only a newline follows. *)
Definition synthesis_head : pystr := lit
"You are consolidating multiple chunk-level analyses of the same incident.
Combine them into ONE coherent incident report.

Requirements:
- Merge duplicated information.
- Resolve ordering into a single timeline per service when possible.
- Keep evidence-based statements.
- Clearly label hypotheses.
- Produce a Jira-ready final summary.

TARGET_SERVICES = ".

Definition synthesis_mid : pystr := lit "

CHUNK ANALYSES:
".

(** Case folding restricted to the ASCII letters, to run examples. *)
Definition ascii_lower (c : N) : N :=
  if ((65 <=? c) && (c <=? 90))%N then (c + 32)%N else c.

Definition ascii_ieq (p c : N) : bool := (ascii_lower p =? ascii_lower c)%N.

(** ** Sample inputs *)

Definition scenario_lines : list pystr :=
  [lit "a"; lit "SVC1 start"; lit "b"; lit "c"; lit "SVC1 stop"; lit "d"].

(** [repr] on strings of printable characters without quotes or
    backslashes: the string between single quotes. *)
Definition quote_repr (s : pystr) : pystr := [39%N] ++ s ++ [39%N].

(** A service that answers with the number of events before the call,
    between blanks. *)
Definition counting_service (log : list event) (model prompt : pystr)
  : option pystr :=
  Some (lit " answer " ++ py_str_int (py_len log) ++ lit "  ").

(** A service that answers the first call and raises from the second
    call on. *)
Definition failing_service (log : list event) (model prompt : pystr)
  : option pystr :=
  match log with
  | [] => Some (lit "first answer")
  | _ :: _ => None
  end.

(** Formatting of a Pass 1 template whose fields are plain names, to run
    examples. *)
Definition plain_format_prompt (repr_str : pystr → pystr) (template : pystr)
    (target_services : list pystr) (chunk : pystr) : option pystr :=
  match py_format template
          [(lit "target_services", py_str_list repr_str target_services);
           (lit "log_text", chunk)] with
  | Formatted prompt => Some prompt
  | FormatRaises | FieldNotPlain => None
  end.

(** Inputs within the ranges of the sidebar. *)
Definition sample_inputs (services : string) : inputs :=
  {| env_key := lit "sk-env"; ui_key := lit " ";
     model := lit "gpt-5.2 ";
     raw_services := lit services;
     context := 0; max_filtered_lines := 20000; chunk_size := 2000;
     prompt_template := lit "services={target_services} log={log_text}";
     uploaded := Some (join [10%N] scenario_lines);
     analyze := true |}.


(** An upload of four hundred matching lines, cut into three chunks. *)
Definition long_inputs : inputs :=
  {| env_key := lit "sk-env"; ui_key := lit " ";
     model := lit "gpt-5.2 ";
     raw_services := lit "svc1";
     context := 0; max_filtered_lines := 20000; chunk_size := 2000;
     prompt_template := lit "services={target_services} log={log_text}";
     uploaded := Some (join [10%N] (replicate 400 (lit "SVC1 start")));
     analyze := true |}.

(** * Properties *)

(** ** Examples *)

Example scenario_D :
  chunk_text_by_chars (lit "abcdefgh") 3 = [lit "abc"; lit "def"; lit "gh"].
Proof. reflexivity. Qed.

Example chunk_trims :
  chunk_text_by_chars (lit "  abcd ") 3 = [lit "abc"; lit "d"].
Proof. reflexivity. Qed.

Example escape_dot : Re.escape (lit "a.c") = lit "a\.c".
Proof. reflexivity. Qed.

(** Unescaped, a dot is pattern syntax; escaped, it matches only itself. *)
Example dot_unescaped_is_syntax :
  (p ← Re.compile (lit "a.c") true; Some (Re.search ascii_ieq p (lit "xabcx")))
  = Some true.
Proof. reflexivity. Qed.

Example dot_escaped_is_literal :
  (p ← Re.compile (Re.escape (lit "a.c")) true;
   Some (Re.search ascii_ieq p (lit "xabcx"), Re.search ascii_ieq p (lit "xA.Cx")))
  = Some (false, true).
Proof. reflexivity. Qed.

Example scenario_A :
  filter_lines_with_context ascii_ieq scenario_lines [lit "SVC1"] 1 100
  = Some (scenario_lines, 2).
Proof. vm_compute. reflexivity. Qed.

Example scenario_B :
  filter_lines_with_context ascii_ieq scenario_lines [lit "svc1"] 0 100
  = Some ([lit "SVC1 start"; lit "SVC1 stop"], 2).
Proof. vm_compute. reflexivity. Qed.

Example zero_cap_keeps_all :
  filter_lines_with_context ascii_ieq scenario_lines [lit "SVC1"] 1 0
  = Some (scenario_lines, 2).
Proof. vm_compute. reflexivity. Qed.

Example cap_cuts_the_tail :
  filter_lines_with_context ascii_ieq scenario_lines [lit "SVC1"] 1 4
  = Some ([lit "a"; lit "SVC1 start"; lit "b"; lit "c"], 2).
Proof. vm_compute. reflexivity. Qed.

Example negative_cap_drops_from_the_end :
  filter_lines_with_context ascii_ieq scenario_lines [lit "SVC1"] 1 (-2)
  = Some ([lit "a"; lit "SVC1 start"; lit "b"; lit "c"], 2).
Proof. vm_compute. reflexivity. Qed.

Example parse_services :
  parse_target_services (lit "freeswitch, tai6-manager,,")
  = [lit "freeswitch"; lit "tai6-manager"].
Proof. vm_compute. reflexivity. Qed.

Example splitlines_breaks :
  splitlines [97; 13; 10; 98; 10; 10; 99; 13]%N = [[97]; [98]; []; [99]]%N.
Proof. reflexivity. Qed.

(** A complete run on the sample: one chunk, its Pass 1 call and the
    synthesis call, whose prompt ends with the labeled answer. *)
Example sample_run :
  match run ascii_ieq quote_repr (plain_format_prompt quote_repr)
          counting_service (sample_inputs "svc1, other") [] with
  | (inr rep, log) =>
    chunks rep = [lit "SVC1 start" ++ [10%N] ++ lit "SVC1 stop"]
    ∧ chunk_outputs rep = [lit "answer 0"]
    ∧ final_report rep = lit "answer 1"
    ∧ log
      = [Called (lit "gpt-5.2")
           (lit "services=['svc1', 'other'] log=SVC1 start" ++ [10%N]
            ++ lit "SVC1 stop");
         Called (lit "gpt-5.2") (synth_prompt rep)]
    ∧ synth_prompt rep
      = synthesis_head ++ lit "['svc1', 'other']" ++ synthesis_mid
        ++ lit "Chunk 1 analysis:" ++ [10%N] ++ lit "answer 0" ++ [10%N]
  | (inl _, _) => False
  end.
Proof. vm_compute. repeat split; reflexivity. Qed.

(** A complete run on the long upload: three chunks, three Pass 1 calls and
    the synthesis call. *)
Example long_run :
  match run ascii_ieq quote_repr (plain_format_prompt quote_repr)
          counting_service long_inputs [] with
  | (inr rep, log) =>
    py_len <$> chunks rep = [2000; 2000; 399]
    ∧ chunk_outputs rep = [lit "answer 0"; lit "answer 1"; lit "answer 2"]
    ∧ final_report rep = lit "answer 3"
    ∧ length log = 4%nat
  | (inl _, _) => False
  end.
Proof. vm_compute. repeat split; reflexivity. Qed.

Example format_plain_fields :
  py_format (lit "{{a}} {x}-{y}") [(lit "x", lit "1"); (lit "y", lit "2")]
  = Formatted (lit "{a} 1-2").
Proof. reflexivity. Qed.

Example format_unknown_name_raises :
  py_format (lit "{x} {z}") [(lit "x", lit "1")] = FormatRaises
  ∧ py_format (lit "{}") [(lit "x", lit "1")] = FormatRaises
  ∧ py_format (lit "a } b") [(lit "x", lit "1")] = FormatRaises
  ∧ py_format (lit "a {x") [(lit "x", lit "1")] = FormatRaises.
Proof. repeat split; reflexivity. Qed.

Example format_other_fields_are_left_alone :
  py_format (lit "{x!s}") [(lit "x", lit "1")] = FieldNotPlain
  ∧ py_format (lit "{x:>4}") [(lit "x", lit "1")] = FieldNotPlain
  ∧ py_format (lit "{x[0]}") [(lit "x", lit "1")] = FieldNotPlain
  ∧ py_format (lit "{x.real}") [(lit "x", lit "1")] = FieldNotPlain.
Proof. repeat split; reflexivity. Qed.

Example sample_run_no_match :
  run ascii_ieq quote_repr (plain_format_prompt quote_repr)
          counting_service (sample_inputs "nonexistent") []
  = (inl Stop, [Shown WarningNoRelevantLines]).
Proof. vm_compute. reflexivity. Qed.

(** A token with brackets and a star hits only the lines that hold those
    very characters. *)
Example special_characters_are_literal :
  filter_lines_with_context ascii_ieq
    [lit "ab"; lit "x a[b]* y"; lit "abbb"; lit "A[B]*"] [lit "a[b]*"] 0 10
  = Some ([lit "x a[b]* y"; lit "A[B]*"], 2).
Proof. vm_compute. reflexivity. Qed.

Example scenario_C :
  filter_lines_with_context ascii_ieq scenario_lines [lit "nonexistent"] 1 100
  = Some ([], 0).
Proof. vm_compute. reflexivity. Qed.

(** ** Slices and ranges *)

Lemma py_len_nonneg {A} (l : list A) : 0 ≤ py_len l.
Proof. unfold py_len. lia. Qed.

(** A slice of non-negative start and width is a [take] of a [drop]. *)
Lemma py_slice_take_drop {A} (l : list A) (i k : Z) :
  0 ≤ i → 0 ≤ k →
  py_slice l i (i + k) = take (Z.to_nat k) (drop (Z.to_nat i) l).
Proof.
  intros Hi Hk. unfold py_slice, clamp_bound, py_len.
  destruct (Z.ltb_spec i 0) as [?|_]; [lia|].
  destruct (Z.ltb_spec (i + k) 0) as [?|_]; [lia|].
  destruct (Z.le_gt_cases i (Z.of_nat (length l))) as [Hin|Hout].
  - rewrite (Z.min_l i) by lia.
    destruct (Z.le_gt_cases (i + k) (Z.of_nat (length l))) as [Hfit|Hcut].
    + rewrite Z.min_l by lia. f_equal. lia.
    + rewrite Z.min_r by lia.
      rewrite !take_ge; [done|rewrite length_drop; lia..].
  - rewrite !Z.min_r by lia. rewrite Z.sub_diag. simpl.
    rewrite (drop_ge l (Z.to_nat i)) by lia. by rewrite take_nil.
Qed.

(** A prefix slice with a non-negative bound is a [take]. *)
Lemma py_slice_to_take {A} (l : list A) (m : Z) :
  0 ≤ m → py_slice_to l m = take (Z.to_nat m) l.
Proof.
  intros Hm. unfold py_slice_to.
  replace m with (0 + m) at 1 by lia.
  rewrite py_slice_take_drop by lia. done.
Qed.

(** A prefix slice with a negative bound drops that many from the end. *)
Lemma py_slice_to_neg {A} (l : list A) (m : Z) :
  m < 0 → py_slice_to l m = take (length l - Z.to_nat (- m)) l.
Proof.
  intros Hm. unfold py_slice_to, py_slice, clamp_bound, py_len.
  destruct (Z.ltb_spec m 0) as [_|?]; [|lia].
  simpl. rewrite Z.min_l by lia. rewrite Z.sub_0_r. f_equal. lia.
Qed.

Lemma seqZ_0_seq (n : nat) : seqZ 0 (Z.of_nat n) = Z.of_nat <$> seq 0 n.
Proof.
  unfold seqZ. rewrite Nat2Z.id. apply list_fmap_ext. intros _ j _. lia.
Qed.

(** ** The chunker *)

(** Cutting a list into [m] consecutive pieces of width [k] loses nothing
    when [m * k] covers its length. *)
Lemma pieces_concat {A} (k m : nat) (t : list A) :
  (length t ≤ m * k)%nat →
  concat ((λ j, take k (drop (j * k) t)) <$> seq 0 m) = t.
Proof.
  revert t. induction m as [|m IH]; intros t Hlen.
  - destruct t; [done|simpl in Hlen; lia].
  - rewrite <- cons_seq, <- fmap_S_seq. simpl.
    rewrite <- list_fmap_compose.
    rewrite <- (take_drop k t) at 2. f_equal.
    rewrite <- (IH (drop k t)) by (rewrite length_drop; lia).
    f_equal. apply list_fmap_ext. intros _ j _. simpl.
    rewrite drop_drop. done.
Qed.

(** The chunks of a trimmed, non-empty text, in [nat] terms. *)
Lemma chunks_as_pieces (t : pystr) (k : Z) :
  0 < k →
  (λ i, py_slice t i (i + k)) <$> py_range3 0 (py_len t) k
  = (λ j, take (Z.to_nat k) (drop (j * Z.to_nat k) t))
      <$> seq 0 (Z.to_nat (if 0 <? py_len t
                           then (py_len t - 0 + k - 1) / k else 0)).
Proof.
  intros Hk. unfold py_range3.
  set (m := if 0 <? py_len t then _ else 0).
  assert (0 ≤ m) as Hm.
  { subst m. destruct (0 <? py_len t); [|lia].
    apply Z.div_pos; [|lia]. pose proof (py_len_nonneg t). lia. }
  rewrite <- (Z2Nat.id m) at 1 by done.
  rewrite seqZ_0_seq, <- !list_fmap_compose.
  apply list_fmap_ext. intros _ j _. simpl.
  rewrite py_slice_take_drop by lia. do 2 f_equal. lia.
Qed.

(** The number of chunks [m] satisfies [(m - 1) * k < len ≤ m * k]. *)
Lemma chunk_count_bounds (n k : Z) :
  0 < n → 0 < k →
  let m := (n - 0 + k - 1) / k in
  (m - 1) * k < n ∧ n ≤ m * k.
Proof.
  intros Hn Hk m. subst m.
  pose proof (Z.div_mod (n - 0 + k - 1) k ltac:(lia)) as Hdm.
  pose proof (Z.mod_pos_bound (n - 0 + k - 1) k Hk) as Hmod.
  nia.
Qed.

(** C1 (P4, chunk round trip): for a text whose trimmed form is non-empty
    and a positive [chunk_size], the concatenation of the chunks is the
    trimmed text, character for character, and every chunk but possibly the
    last has exactly [chunk_size] characters. *)
Theorem chunk_round_trip (T : pystr) (chunk_size : Z) :
  strip T ≠ [] → 0 < chunk_size →
  concat (chunk_text_by_chars T chunk_size) = strip T
  ∧ ∀ (i : nat) (c : pystr),
      chunk_text_by_chars T chunk_size !! i = Some c →
      (S i < length (chunk_text_by_chars T chunk_size))%nat →
      py_len c = chunk_size.
Proof.
  intros Hne Hk. unfold chunk_text_by_chars.
  destruct (strip T) as [|c0 t0] eqn:Ht; [done|].
  destruct (Z.leb_spec chunk_size 0) as [?|_]; [lia|].
  rewrite chunks_as_pieces by done.
  set (t := c0 :: t0) in *.
  assert (0 < py_len t) as Hpos by (unfold py_len; simpl; lia).
  destruct (Z.ltb_spec 0 (py_len t)) as [_|?]; [|lia].
  destruct (chunk_count_bounds (py_len t) chunk_size Hpos Hk) as [Hlo Hhi].
  set (m := (py_len t - 0 + chunk_size - 1) / chunk_size) in *.
  assert (0 ≤ m) by nia.
  split.
  - apply pieces_concat. unfold py_len in Hhi. nia.
  - intros i c Hc Hi.
    rewrite length_fmap, length_seq in Hi.
    rewrite list_lookup_fmap in Hc.
    destruct (seq 0 (Z.to_nat m) !! i) as [j|] eqn:Hj; [|done].
    apply lookup_seq in Hj as [-> _]. simpl in Hc. injection Hc as <-.
    unfold py_len in *. rewrite length_take, length_drop. nia.
Qed.

Lemma chunk_round_trip_witness :
  strip (lit " abcdefgh ") ≠ [] ∧ 0 < 3
  ∧ concat (chunk_text_by_chars (lit " abcdefgh ") 3) = lit "abcdefgh"
  ∧ ∀ (i : nat) (c : pystr),
      chunk_text_by_chars (lit " abcdefgh ") 3 !! i = Some c →
      (S i < length (chunk_text_by_chars (lit " abcdefgh ") 3))%nat →
      py_len c = 3.
Proof.
  assert (strip (lit " abcdefgh ") ≠ []) as Hne by (vm_compute; discriminate).
  split; [exact Hne|]. split; [lia|].
  apply (chunk_round_trip (lit " abcdefgh ") 3); [exact Hne|lia].
Defined.

(** C6 (P5, chunk disable): with [chunk_size = 0] a non-empty trimmed text
    comes back whole, as the only chunk; a text that trims to nothing gives
    no chunk, whatever the chunk size. *)
Theorem chunk_disable (T : pystr) (k : Z) :
  (T ≠ [] → strip T = T → chunk_text_by_chars T 0 = [T])
  ∧ (strip T = [] → chunk_text_by_chars T k = []).
Proof.
  unfold chunk_text_by_chars. split.
  - intros Hne Htrim. rewrite Htrim. destruct T; done.
  - intros ->. done.
Qed.

Lemma chunk_disable_witness :
  (lit "ab cd" ≠ [] ∧ strip (lit "ab cd") = lit "ab cd"
   ∧ chunk_text_by_chars (lit "ab cd") 0 = [lit "ab cd"])
  ∧ (strip (lit "  ") = [] ∧ chunk_text_by_chars (lit "  ") 7 = []).
Proof.
  assert (lit "ab cd" ≠ []) as Hne by (vm_compute; discriminate).
  split.
  - split; [exact Hne|]. split; [reflexivity|].
    apply (chunk_disable (lit "ab cd") 0); [exact Hne|reflexivity].
  - split; [reflexivity|]. apply (chunk_disable (lit "  ") 7). reflexivity.
Defined.

(** Any non-positive chunk size disables chunking. *)
Lemma chunk_disable_nonpositive (T : pystr) (k : Z) :
  strip T ≠ [] → k ≤ 0 → chunk_text_by_chars T k = [strip T].
Proof.
  intros Hne Hk. unfold chunk_text_by_chars.
  destruct (strip T); [done|].
  destruct (Z.leb_spec k 0); [done|lia].
Qed.

(** ** Escaped tokens compile to literals *)

Lemma special_not_alnum (c : N) :
  c ∈ Re.special_chars → Re.is_ascii_alnum c = false.
Proof.
  revert c. apply Forall_forall. by vm_compute; repeat constructor.
Qed.

Lemma syntax_is_special (c : N) :
  c ∈ Re.syntax_chars → c ∈ Re.special_chars.
Proof.
  revert c. apply Forall_forall.
  apply (bool_decide_unpack _). by vm_compute.
Qed.

Lemma quantifier_is_special (c : N) (q : Re.quant) :
  Re.quant_of c = Some q → c ∈ Re.special_chars.
Proof.
  unfold Re.quant_of.
  destruct (N.eqb_spec c 42) as [->|_];
    [intros _; by apply (bool_decide_unpack _); vm_compute|].
  destruct (N.eqb_spec c 43) as [->|_];
    [intros _; by apply (bool_decide_unpack _); vm_compute|].
  destruct (N.eqb_spec c 63) as [->|_];
    [intros _; by apply (bool_decide_unpack _); vm_compute|].
  done.
Qed.

(** Parsing an escaped token yields one literal item per character of the
    token: no character of it is read as pattern syntax. *)
Lemma parse_escape (tok : pystr) (acc : list Re.item) :
  Re.parse (Re.escape tok) acc = Some (reverse acc ++ Re.literal_items tok).
Proof.
  revert acc. induction tok as [|c tok IH]; intros acc.
  - simpl. by rewrite app_nil_r.
  - unfold Re.escape in *. rewrite bind_cons.
    case_bool_decide as Hc.
    + cbn [app Re.parse]. rewrite N.eqb_refl.
      rewrite (special_not_alnum c Hc), IH.
      rewrite reverse_cons, <- app_assoc. done.
    + cbn [app Re.parse].
      destruct (N.eqb_spec c 92) as [->|_].
      { exfalso. apply Hc. by apply (bool_decide_unpack _); vm_compute. }
      destruct (N.eqb_spec c 46) as [->|_].
      { exfalso. apply Hc. by apply (bool_decide_unpack _); vm_compute. }
      destruct (Re.quant_of c) as [q|] eqn:Hq.
      { exfalso. eauto using quantifier_is_special. }
      case_bool_decide as Hs.
      { exfalso. eauto using syntax_is_special. }
      rewrite IH, reverse_cons, <- app_assoc. done.
Qed.

Lemma compile_escape (tok : pystr) (ic : bool) :
  Re.compile (Re.escape tok) ic = Some (Re.Pattern (Re.literal_items tok) ic).
Proof. unfold Re.compile. by rewrite parse_escape. Qed.

Section filter_facts.

Variable ieq : N → N → bool.

(** ** Matching a literal pattern *)

(** A literal pattern matches at the start of a text exactly when the text
    begins with a span equal to the token up to case. *)
Lemma match_here_literal (tok s : pystr) :
  Re.match_here ieq true (Re.literal_items tok) s = true
  ↔ ∃ mid post, s = mid ++ post ∧ Forall2 (λ p c, ieq p c = true) tok mid.
Proof.
  revert s. induction tok as [|p tok IH]; intros s.
  - simpl. split; [intros _|done].
    exists [], s. split; [done|constructor].
  - cbn [Re.literal_items fmap list_fmap Re.match_here].
    fold (Re.literal_items tok). destruct s as [|c s].
    + split; [done|]. intros (mid & post & Hs & Hm).
      inversion Hm; subst. done.
    + cbn [Re.atom_matches]. rewrite andb_true_iff, IH. split.
      * intros (Hpc & mid & post & -> & Hm).
        exists (c :: mid), post. split; [done|by constructor].
      * intros (mid & post & Hs & Hm).
        inversion Hm as [|? c' ? mid' Hpc Hm']; subst.
        injection Hs as <- ->. eauto.
Qed.

(** [search] succeeds exactly when the items match at some suffix. *)
Lemma search_items_suffix (ic : bool) (items : list Re.item) (s : pystr) :
  Re.search_items ieq ic items s = true
  ↔ ∃ pre suf, s = pre ++ suf ∧ Re.match_here ieq ic items suf = true.
Proof.
  induction s as [|c s IH]; cbn [Re.search_items]; rewrite orb_true_iff.
  - split.
    + intros [H|?]; [|done]. by exists [], [].
    + intros (pre & suf & Hs & H). left.
      symmetry in Hs. apply app_eq_nil in Hs as [-> ->]. done.
  - rewrite IH. split.
    + intros [H|(pre & suf & -> & H)].
      * by exists [], (c :: s).
      * by exists (c :: pre), suf.
    + intros ([|c' pre] & suf & Hs & H); simpl in Hs.
      * left. by subst.
      * right. injection Hs as <- ->. eauto.
Qed.

(** Searching for an escaped token is a case-insensitive literal substring
    test. *)
Lemma search_literal (tok line : pystr) :
  Re.search ieq (Re.Pattern (Re.literal_items tok) true) line = true
  ↔ ci_substring ieq tok line.
Proof.
  unfold Re.search, ci_substring. cbn [Re.pat_items Re.pat_ignorecase].
  rewrite search_items_suffix. split.
  - intros (pre & suf & -> & H).
    apply match_here_literal in H as (mid & post & -> & Hm). eauto.
  - intros (pre & mid & post & -> & Hm).
    exists pre, (mid ++ post). split; [done|].
    apply match_here_literal. eauto.
Qed.

(** ** The patterns *)

Lemma compile_tokens_literal (tokens : list pystr) :
  compile_tokens tokens
  = Some ((λ tok, Re.Pattern (Re.literal_items tok) true) <$> tokens).
Proof.
  unfold compile_tokens. apply mapM_Some.
  induction tokens as [|tok tokens IH]; constructor; [|done].
  apply compile_escape.
Qed.

Lemma any_search_literal (tokens : list pystr) (line : pystr) :
  any_search ieq
    ((λ tok, Re.Pattern (Re.literal_items tok) true) <$> tokens) line = true
  ↔ ∃ tok, tok ∈ tokens ∧ ci_substring ieq tok line.
Proof.
  unfold any_search. rewrite existsb_exists. split.
  - intros (p & Hp & Hs). apply list_elem_of_In in Hp.
    apply list_elem_of_fmap in Hp as (tok & -> & Htok).
    exists tok. split; [done|]. by apply search_literal.
  - intros (tok & Htok & Hs). eexists. split.
    + apply list_elem_of_In, list_elem_of_fmap. eauto.
    + by apply search_literal.
Qed.

(** ** The hit indices *)

Lemma py_enumerate_lookup {A} (l : list A) (s : Z) (k : nat) :
  py_enumerate s l !! k = (λ x, (s + Z.of_nat k, x)) <$> l !! k.
Proof.
  revert s k. induction l as [|x l IH]; intros s [|k]; simpl; try done.
  - do 2 f_equal. lia.
  - rewrite IH. destruct (l !! k); simpl; [|done]. do 2 f_equal. lia.
Qed.

(** The loop appends, in order, the indices of the lines some pattern
    matches. *)
Lemma collect_hits_from (patterns : list Re.pattern) (lines : list pystr)
    (s : Z) (acc : list Z) :
  foldl (λ hit_idxs '(i, line),
           if any_search ieq patterns line then hit_idxs ++ [i] else hit_idxs)
        acc (py_enumerate s lines)
  = acc ++ (fst <$> filter (λ il, any_search ieq patterns il.2 = true)
                      (py_enumerate s lines)).
Proof.
  revert s acc. induction lines as [|line lines IH]; intros s acc.
  - simpl. by rewrite app_nil_r.
  - cbn [py_enumerate foldl]. rewrite IH, filter_cons. simpl.
    destruct (any_search ieq patterns line) eqn:Hany.
    + rewrite decide_True by done. simpl. by rewrite <- app_assoc.
    + rewrite decide_False by done. done.
Qed.

Lemma collect_hits_filter (patterns : list Re.pattern) (lines : list pystr) :
  collect_hits ieq patterns lines
  = fst <$> filter (λ il, any_search ieq patterns il.2 = true)
              (py_enumerate 0 lines).
Proof. unfold collect_hits. by rewrite collect_hits_from. Qed.

(** An index is a hit exactly when it is the position of a line that some
    pattern matches. *)
Lemma elem_of_collect_hits (patterns : list Re.pattern) (lines : list pystr)
    (i : Z) :
  i ∈ collect_hits ieq patterns lines
  ↔ 0 ≤ i ∧ ∃ line, lines !! Z.to_nat i = Some line
                    ∧ any_search ieq patterns line = true.
Proof.
  rewrite collect_hits_filter, list_elem_of_fmap. split.
  - intros ([i' line] & -> & Hin). apply list_elem_of_filter in Hin as [Hany Hin].
    apply list_elem_of_lookup in Hin as [k Hk].
    rewrite py_enumerate_lookup in Hk.
    destruct (lines !! k) as [line'|] eqn:Hl; [|done].
    simpl in Hk. injection Hk as <- <-. simpl. split; [lia|].
    exists line'. rewrite Z.add_0_l, Nat2Z.id. done.
  - intros (Hi & line & Hl & Hany). exists (i, line). split; [done|].
    apply list_elem_of_filter. split; [done|].
    apply list_elem_of_lookup. exists (Z.to_nat i).
    rewrite py_enumerate_lookup, Hl. simpl. do 2 f_equal. lia.
Qed.

(** The hit indices come out in strictly increasing order. *)
Lemma collect_hits_sorted (patterns : list Re.pattern) (lines : list pystr) :
  StronglySorted Z.lt (collect_hits ieq patterns lines).
Proof.
  rewrite collect_hits_filter. generalize 0.
  induction lines as [|line lines IH]; intros s; [constructor|].
  cbn [py_enumerate]. rewrite filter_cons.
  assert (∀ j, j ∈ fst <$> filter (λ il, any_search ieq patterns il.2 = true)
                            (py_enumerate (s + 1) lines) → s < j) as Hlt.
  { intros j Hj. apply list_elem_of_fmap in Hj as ([j' l] & -> & Hin).
    apply list_elem_of_filter in Hin as [_ Hin].
    apply list_elem_of_lookup in Hin as [k Hk].
    rewrite py_enumerate_lookup in Hk.
    destruct (lines !! k); [|done]. simpl in Hk. injection Hk as <- <-.
    simpl. lia. }
  case_decide; [|apply IH]. simpl. constructor; [apply IH|].
  by apply Forall_forall.
Qed.

Lemma StronglySorted_lt_NoDup (l : list Z) :
  StronglySorted Z.lt l → NoDup l.
Proof.
  induction 1 as [|x l _ IH Hx]; constructor; [|done].
  intros Hin. rewrite Forall_forall in Hx. specialize (Hx x Hin). lia.
Qed.

(** ** The kept indices *)

Lemma elem_of_add_all (keep : gset Z) (l : list Z) (j : Z) :
  j ∈ foldl (λ keep j, {[j]} ∪ keep) keep l ↔ j ∈ keep ∨ j ∈ l.
Proof.
  revert keep. induction l as [|x l IH]; intros keep; simpl.
  - rewrite elem_of_nil. tauto.
  - rewrite IH, elem_of_cons, elem_of_union, elem_of_singleton. tauto.
Qed.

Lemma elem_of_py_range (start stop j : Z) :
  j ∈ py_range start stop ↔ start ≤ j < stop.
Proof. unfold py_range. rewrite elem_of_seqZ. lia. Qed.

Lemma elem_of_expand_from (n : Z) (hits : list Z) (radius : Z)
    (keep : gset Z) (j : Z) :
  j ∈ foldl (λ keep i,
               let start := Z.max 0 (i - radius) in
               let end_ := Z.min (n - 1) (i + radius) in
               foldl (λ keep j, {[j]} ∪ keep) keep (py_range start (end_ + 1)))
            keep hits
  ↔ j ∈ keep ∨ ∃ h, h ∈ hits ∧ in_window n radius h j.
Proof.
  revert keep. induction hits as [|h hits IH]; intros keep.
  - simpl. split; [auto|]. intros [?|(h & Hh & _)]; [done|].
    by apply elem_of_nil in Hh.
  - cbn [foldl]. rewrite IH. cbv zeta.
    rewrite elem_of_add_all, elem_of_py_range. unfold in_window. split.
    + intros [[?|Hw]|(h' & Hh' & Hw)]; [by left| |].
      * right. exists h. split; [by left|lia].
      * right. exists h'. split; [by right|done].
    + intros [?|(h' & Hh' & Hw)]; [by left; left|].
      apply elem_of_cons in Hh' as [->|Hh'].
      * left. right. lia.
      * right. eauto.
Qed.

(** The keep set is the union of the clamped windows around the hits. *)
Lemma elem_of_expand_hits (n : Z) (hits : list Z) (radius j : Z) :
  j ∈ expand_hits n hits radius ↔ ∃ h, h ∈ hits ∧ in_window n radius h j.
Proof.
  unfold expand_hits. rewrite elem_of_expand_from.
  split; [intros [?|?]; [set_solver|done]|auto].
Qed.

Lemma hit_index_list_eq (lines tokens : list pystr) :
  hit_index_list ieq lines tokens
  = Some (collect_hits ieq
            ((λ tok, Re.Pattern (Re.literal_items tok) true) <$> tokens) lines).
Proof. unfold hit_index_list. by rewrite compile_tokens_literal. Qed.

Lemma keep_index_set_eq (lines tokens : list pystr) (radius : Z) :
  keep_index_set ieq lines tokens radius
  = Some (expand_hits (py_len lines)
            (collect_hits ieq
               ((λ tok, Re.Pattern (Re.literal_items tok) true) <$> tokens)
               lines) radius).
Proof. unfold keep_index_set. by rewrite hit_index_list_eq. Qed.

(** C2 (P2, window correctness): for a radius that is not negative, the keep
    set holds exactly the indices that lie in the clamped window
    [max(0, h - radius) .. min(len(lines) - 1, h + radius)] of some hit [h];
    without hits it is empty. *)
Theorem keep_set_is_union_of_windows (lines tokens : list pystr) (radius : Z) :
  ∃ hit_idxs keep,
    hit_index_list ieq lines tokens = Some hit_idxs
    ∧ keep_index_set ieq lines tokens radius = Some keep
    ∧ (0 ≤ radius →
       ∀ j : Z,
         j ∈ keep
         ↔ ∃ h, h ∈ hit_idxs
                ∧ Z.max 0 (h - radius) ≤ j ≤ Z.min (py_len lines - 1) (h + radius))
    ∧ (hit_idxs = [] → keep = ∅).
Proof.
  eexists _, _.
  split; [apply hit_index_list_eq|]. split; [apply keep_index_set_eq|].
  split; [intros _ j; apply elem_of_expand_hits|].
  intros ->. done.
Qed.

(** ** Sorting the keep set *)

Lemma py_sorted_perm (s : gset Z) : py_sorted s ≡ₚ elements s.
Proof. apply merge_sort_Permutation. Qed.

Lemma elem_of_py_sorted (s : gset Z) (j : Z) : j ∈ py_sorted s ↔ j ∈ s.
Proof. by rewrite py_sorted_perm, elem_of_elements. Qed.

Lemma length_py_sorted (s : gset Z) : length (py_sorted s) = size s.
Proof. by rewrite py_sorted_perm. Qed.

Lemma StronglySorted_le_lt (l : list Z) :
  StronglySorted Z.le l → NoDup l → StronglySorted Z.lt l.
Proof.
  induction 1 as [|x l _ IH Hx]; intros Hnd; [constructor|].
  apply NoDup_cons in Hnd as [Hnotin Hnd]. constructor; [by apply IH|].
  rewrite Forall_forall in Hx. apply Forall_forall. intros y Hy.
  specialize (Hx y Hy). assert (x ≠ y) by (by intros ->). lia.
Qed.

(** [sorted(keep)] lists the kept indices in strictly increasing order. *)
Lemma py_sorted_increasing (s : gset Z) : StronglySorted Z.lt (py_sorted s).
Proof.
  apply StronglySorted_le_lt.
  - apply (StronglySorted_merge_sort Z.le).
  - rewrite py_sorted_perm. apply NoDup_elements.
Qed.

Lemma StronglySorted_take {A} (R : relation A) (l : list A) (k : nat) :
  StronglySorted R l → StronglySorted R (take k l).
Proof.
  intros Hl. rewrite <- (take_drop k l) in Hl.
  by apply StronglySorted_app_1_l in Hl.
Qed.

(** ** Picking the kept lines *)

Lemma py_getitem_in_range {A} (l : list A) (i : Z) :
  0 ≤ i < py_len l → ∃ x, py_getitem l i = Some x ∧ l !! Z.to_nat i = Some x.
Proof.
  intros Hi. unfold py_getitem. destruct (Z.ltb_spec i 0) as [?|_]; [lia|].
  destruct (lookup_lt_is_Some_2 l (Z.to_nat i)) as [x Hx].
  { unfold py_len in Hi. lia. }
  eauto.
Qed.

(** No index in range raises, and each picked entry is its line. *)
Lemma pick_lines_in_range (lines : list pystr) (idxs : list Z) :
  Forall (λ i, 0 ≤ i < py_len lines) idxs →
  ∃ out, pick_lines lines idxs = Some out ∧ Forall2 (picked lines) idxs out.
Proof.
  induction 1 as [|i idxs Hi _ (out & Hout & Hall)].
  - exists []. split; [done|constructor].
  - destruct (py_getitem_in_range lines i Hi) as (line & Hget & Hline).
    exists (rstrip_nl line :: out). unfold pick_lines in *. split.
    + cbn [mapM]. rewrite Hget, Hout. done.
    + constructor; [|done]. split; [lia|eauto].
Qed.

Lemma Forall2_with_left {A B} (Q : A → Prop) (P : A → B → Prop)
    (l : list A) (k : list B) :
  Forall Q l → Forall2 P l k → Forall2 (λ x y, Q x ∧ P x y) l k.
Proof.
  intros HQ HP. revert HQ.
  induction HP; intros HQ; [constructor|].
  apply Forall_cons in HQ as [? ?]. constructor; auto.
Qed.

(** Entries picked at increasing positions form a sublist. *)
Lemma picked_sublist_from (lines : list pystr) (idxs : list Z)
    (out : list pystr) (o : Z) :
  StronglySorted Z.lt idxs →
  Forall2 (λ i x, o ≤ i ∧ ∃ line, lines !! Z.to_nat (i - o) = Some line
                                  ∧ x = rstrip_nl line) idxs out →
  out `sublist_of` (rstrip_nl <$> lines).
Proof.
  intros Hsorted. revert lines out o.
  induction Hsorted as [|i idxs _ IH Hi]; intros lines out o Hall.
  - inversion Hall; subst. apply sublist_nil_l.
  - inversion Hall as [|? x ? out' (Hoi & line & Hline & ->) Hall']; subst.
    rewrite <- (take_drop_middle lines _ _ Hline), fmap_app, fmap_cons.
    apply sublist_inserts_l, sublist_skip.
    apply (IH _ _ (i + 1)).
    eapply Forall2_impl; [exact (Forall2_with_left _ _ _ _ Hi Hall')|].
    intros j x (Hlt & _ & line' & Hline' & ->). simpl in Hlt.
    split; [lia|]. exists line'. split; [|done].
    rewrite lookup_drop, <- Hline'. f_equal. lia.
Qed.

Lemma picked_sublist (lines : list pystr) (idxs : list Z) (out : list pystr) :
  StronglySorted Z.lt idxs → Forall2 (picked lines) idxs out →
  out `sublist_of` (rstrip_nl <$> lines).
Proof.
  intros Hsorted Hall. apply (picked_sublist_from lines idxs out 0 Hsorted).
  eapply Forall2_impl; [exact Hall|].
  intros i x (Hi & line & Hline & ->). rewrite Z.sub_0_r. eauto.
Qed.

(** ** The filter as a whole *)

Lemma expand_hits_in_range (n : Z) (hits : list Z) (radius j : Z) :
  j ∈ expand_hits n hits radius → 0 ≤ j < n.
Proof.
  intros Hj. apply elem_of_expand_hits in Hj as (h & _ & Hw).
  unfold in_window in Hw. lia.
Qed.

Lemma collect_hits_no_patterns (lines : list pystr) :
  collect_hits ieq [] lines = [].
Proof.
  rewrite collect_hits_filter. generalize 0.
  induction lines as [|line lines IH]; intros s; [done|].
  cbn [py_enumerate]. rewrite filter_cons.
  case_decide as Hany; [done|]. apply IH.
Qed.

(** A prefix slice is a [take]. *)
Lemma py_slice_to_is_take {A} (l : list A) (m : Z) :
  ∃ k : nat, py_slice_to l m = take k l.
Proof.
  destruct (Z.le_gt_cases 0 m).
  - eexists. by apply py_slice_to_take.
  - eexists. apply py_slice_to_neg. lia.
Qed.

(** What a call computes: the hits, the keep set, the lines picked at the
    sorted kept indices, and the safety cap applied to those lines. *)
Lemma filter_lines_unfold (lines tokens : list pystr) (radius max_lines : Z) :
  ∃ hit_idxs keep full,
    hit_index_list ieq lines tokens = Some hit_idxs
    ∧ keep_index_set ieq lines tokens radius = Some keep
    ∧ filtered_uncapped ieq lines tokens radius = Some full
    ∧ Forall2 (picked lines) (py_sorted keep) full
    ∧ filter_lines_with_context ieq lines tokens radius max_lines
      = Some (if negb (max_lines =? 0) && (max_lines <? py_len full)
              then py_slice_to full max_lines else full,
              py_len hit_idxs).
Proof.
  unfold filtered_uncapped.
  rewrite hit_index_list_eq, keep_index_set_eq. cbn [mbind option_bind].
  set (patterns := (λ tok, Re.Pattern (Re.literal_items tok) true) <$> tokens).
  set (hits := collect_hits ieq patterns lines).
  set (keep := expand_hits (py_len lines) hits radius).
  destruct (pick_lines_in_range lines (py_sorted keep)) as (full & Hfull & Hall).
  { apply Forall_forall. intros j Hj. apply elem_of_py_sorted in Hj.
    by apply expand_hits_in_range in Hj. }
  exists hits, keep, full. repeat (split; [done|]).
  unfold filter_lines_with_context. destruct tokens as [|tok tokens'].
  - assert (full = []) as ->.
    { subst keep hits patterns. rewrite collect_hits_no_patterns in Hall.
      by inversion Hall. }
    subst hits patterns. rewrite collect_hits_no_patterns.
    destruct (negb (max_lines =? 0) && (max_lines <? py_len [])); [|done].
    destruct (py_slice_to_is_take (@nil pystr) max_lines) as [k ->].
    by rewrite take_nil.
  - rewrite compile_tokens_literal. cbn [mbind option_bind].
    fold patterns. fold hits. fold keep. rewrite Hfull. done.
Qed.

(** C7 (literal, case-insensitive hits): with a non-empty token list, the
    index [i] is among the hits exactly when it is the position of a line
    in which some token occurs as a literal substring up to case, and the
    hit count returned is the number of these indices.  Every token,
    whatever characters it holds, is compiled to the pattern that matches
    its own characters one by one and nothing else. *)
Theorem hit_iff_literal_substring (lines tokens : list pystr) :
  tokens ≠ [] →
  (∀ tok, tok ∈ tokens →
     Re.compile (Re.escape tok) true
     = Some (Re.Pattern (Re.literal_items tok) true))
  ∧ ∃ hit_idxs,
      hit_index_list ieq lines tokens = Some hit_idxs
      ∧ (∀ i : Z,
           i ∈ hit_idxs
           ↔ 0 ≤ i ∧ ∃ line, lines !! Z.to_nat i = Some line
                             ∧ ∃ tok, tok ∈ tokens
                                      ∧ ci_substring ieq tok line)
      ∧ ∀ radius max_lines : Z,
          ∃ filtered,
            filter_lines_with_context ieq lines tokens radius max_lines
            = Some (filtered, py_len hit_idxs).
Proof.
  intros _. split; [intros tok _; apply compile_escape|].
  eexists. split; [apply hit_index_list_eq|]. split.
  - intros i. rewrite elem_of_collect_hits.
    by setoid_rewrite any_search_literal.
  - intros radius max_lines.
    destruct (filter_lines_unfold lines tokens radius max_lines)
      as (hits & keep & full & Hhits & _ & _ & _ & Hres).
    rewrite hit_index_list_eq in Hhits. apply (inj Some) in Hhits.
    rewrite Hhits. eauto.
Qed.

(** C4 (P3, empty tokens): without tokens the result is the empty sequence
    and a hit count of zero, whatever the lines, the radius and the cap. *)
Theorem empty_tokens_filter_nothing (lines : list pystr)
    (radius max_output_lines : Z) :
  filter_lines_with_context ieq lines [] radius max_output_lines
  = Some ([], 0).
Proof. reflexivity. Qed.

(** C3 (P1, monotonic subsequence): every call returns; the entries
    returned are the lines at strictly increasing original positions, each
    without its trailing newlines, so they form a subsequence of the
    original lines in their original order, with no line repeated. *)
Theorem filtered_is_ordered_subsequence (lines tokens : list pystr)
    (radius max_output_lines : Z) :
  ∃ idxs filtered hit_count,
    filter_lines_with_context ieq lines tokens radius max_output_lines
    = Some (filtered, hit_count)
    ∧ StronglySorted Z.lt idxs
    ∧ Forall2 (λ i out,
                 0 ≤ i ∧ ∃ line, lines !! Z.to_nat i = Some line
                                 ∧ out = rstrip_nl line) idxs filtered
    ∧ filtered `sublist_of` (rstrip_nl <$> lines).
Proof.
  destruct (filter_lines_unfold lines tokens radius max_output_lines)
    as (hits & keep & full & _ & _ & _ & Hall & Hres).
  pose proof (py_sorted_increasing keep) as Hsorted.
  assert (∃ k : nat,
            (if negb (max_output_lines =? 0)
                && (max_output_lines <? py_len full)
             then py_slice_to full max_output_lines else full) = take k full)
    as [k Hk].
  { destruct (negb _ && _); [apply py_slice_to_is_take|].
    exists (length full). by rewrite firstn_all. }
  rewrite Hk in Hres.
  assert (Forall2 (picked lines) (take k (py_sorted keep)) (take k full))
    as Hall' by (by apply Forall2_take).
  assert (StronglySorted Z.lt (take k (py_sorted keep))) as Hsorted'
    by (by apply StronglySorted_take).
  eexists _, _, _. split; [exact Hres|]. split; [done|]. split; [exact Hall'|].
  by eapply picked_sublist.
Qed.

(** C5 as amended (P6, truncation safeguard): every call returns, and its
    hit count is the size of the set of hit indices, also when the cap cuts
    lines off.  When the cap is positive and the keep set has more indices
    than the cap, exactly [max_output_lines] entries are returned: the first
    ones, by ascending kept index, of the uncapped result. *)
Theorem truncation_safeguard (lines tokens : list pystr)
    (radius max_output_lines : Z) :
  ∃ hit_idxs keep full filtered,
    hit_index_list ieq lines tokens = Some hit_idxs
    ∧ keep_index_set ieq lines tokens radius = Some keep
    ∧ filtered_uncapped ieq lines tokens radius = Some full
    ∧ filter_lines_with_context ieq lines tokens radius max_output_lines
      = Some (filtered, Z.of_nat (size (list_to_set hit_idxs : gset Z)))
    ∧ (0 < max_output_lines →
       max_output_lines < Z.of_nat (size keep) →
       py_len filtered = max_output_lines
       ∧ filtered = take (Z.to_nat max_output_lines) full).
Proof.
  destruct (filter_lines_unfold lines tokens radius max_output_lines)
    as (hits & keep & full & Hhits & Hkeep & Hfull & Hall & Hres).
  eexists hits, keep, full, _.
  repeat (split; [done|]). split.
  - rewrite Hres. do 2 f_equal. unfold py_len. f_equal.
    rewrite size_list_to_set; [done|].
    rewrite hit_index_list_eq in Hhits. injection Hhits as <-.
    apply StronglySorted_lt_NoDup, collect_hits_sorted.
  - intros Hpos Hbig.
    assert (length full = size keep) as Hlen.
    { by rewrite <- (Forall2_length _ _ _ Hall), length_py_sorted. }
    unfold py_len. rewrite Hlen.
    destruct (Z.eqb_spec max_output_lines 0) as [?|_]; [lia|].
    destruct (Z.ltb_spec max_output_lines (Z.of_nat (size keep))) as [_|?];
      [|lia].
    cbn [negb andb]. rewrite py_slice_to_take by lia.
    split; [|done]. rewrite length_take. lia.
Qed.

(** C10 (cap of zero): with [max_lines = 0] the cap is skipped: the call
    returns the whole uncapped result, one entry per kept index, however
    many there are. *)
Theorem zero_cap_is_unlimited (lines tokens : list pystr) (radius : Z) :
  ∃ hit_idxs keep full,
    hit_index_list ieq lines tokens = Some hit_idxs
    ∧ keep_index_set ieq lines tokens radius = Some keep
    ∧ filtered_uncapped ieq lines tokens radius = Some full
    ∧ filter_lines_with_context ieq lines tokens radius 0
      = Some (full, py_len hit_idxs)
    ∧ length full = size keep.
Proof.
  destruct (filter_lines_unfold lines tokens radius 0)
    as (hits & keep & full & Hhits & Hkeep & Hfull & Hall & Hres).
  exists hits, keep, full. do 3 (split; [done|]). split; [exact Hres|].
  by rewrite <- (Forall2_length _ _ _ Hall), length_py_sorted.
Qed.

End filter_facts.

(** ** The synthesis prompt *)

(** Filling the two fields of [SYNTHESIS_PROMPT]. *)
Lemma format_synthesis (services_text joined_text : pystr) :
  py_format SYNTHESIS_PROMPT
    [(lit "target_services", services_text);
     (lit "chunk_analyses", joined_text)]
  = Formatted (synthesis_head ++ services_text ++ synthesis_mid
               ++ joined_text ++ [10%N]).
Proof. vm_compute. reflexivity. Qed.

Lemma py_getitem_app_r {A} (pre l : list A) (x : A) :
  py_getitem (pre ++ x :: l) (py_len pre) = Some x.
Proof.
  unfold py_getitem, py_len.
  destruct (Z.ltb_spec (Z.of_nat (length pre)) 0) as [?|_]; [lia|].
  rewrite Nat2Z.id. by apply list_lookup_middle.
Qed.

Lemma labeled_app_r (pre l : list pystr) (x : pystr) :
  labeled (pre ++ x :: l) (py_len pre) = Some (chunk_block (py_len pre + 1) x).
Proof. unfold labeled. by rewrite py_getitem_app_r. Qed.

(** The comprehension labels the results in order, numbering from one. *)
Lemma labeled_from (pre outs : list pystr) :
  mapM (labeled (pre ++ outs)) (seqZ (py_len pre) (py_len outs))
  = Some (blocks_from (py_len pre + 1) outs).
Proof.
  revert pre. induction outs as [|out outs IH]; intros pre; [done|].
  rewrite seqZ_cons by (unfold py_len; simpl; lia).
  cbn [mapM blocks_from]. rewrite labeled_app_r. cbn [mbind option_bind].
  replace (Z.succ (py_len pre)) with (py_len (pre ++ [out]))
    by (unfold py_len; rewrite length_app; simpl; lia).
  replace (Z.pred (py_len (out :: outs))) with (py_len outs)
    by (unfold py_len; simpl; lia).
  replace (pre ++ out :: outs) with ((pre ++ [out]) ++ outs)
    by (by rewrite <- app_assoc).
  rewrite IH. cbn [mbind option_bind mret option_ret].
  do 3 f_equal. unfold py_len. rewrite length_app. simpl. lia.
Qed.

Lemma joined_blocks (chunk_outputs : list pystr) :
  joined chunk_outputs = Some (join SEPARATOR (blocks_from 1 chunk_outputs)).
Proof.
  unfold joined, py_range. rewrite Z.sub_0_r.
  pose proof (labeled_from [] chunk_outputs) as H. simpl in H.
  change (py_len []) with 0 in H. by rewrite H.
Qed.

Lemma blocks_from_lookup (results : list pystr) (s : Z) (i : nat) :
  blocks_from s results !! i
  = chunk_block (s + Z.of_nat i) <$> results !! i.
Proof.
  revert s i. induction results as [|r results IH]; intros s [|i]; simpl;
    try done.
  - by rewrite Z.add_0_r.
  - rewrite IH. destruct (results !! i); simpl; [|done]. do 2 f_equal. lia.
Qed.

(** A joined sequence holds every part, and every two neighbours with the
    separator between them. *)
Lemma join_part (sep : pystr) (parts : list pystr) (i : nat) (p : pystr) :
  parts !! i = Some p → ∃ pre post, join sep parts = pre ++ p ++ post.
Proof.
  revert i. induction parts as [|q parts IH]; intros i Hi; [done|].
  destruct i as [|i]; simpl in Hi.
  - injection Hi as ->. exists []. destruct parts; simpl.
    + exists []. by rewrite app_nil_r.
    + eauto.
  - destruct parts as [|q' parts]; [done|].
    destruct (IH i Hi) as (pre & post & Hj).
    exists (q ++ sep ++ pre), post. cbn [join] in *. rewrite Hj.
    by rewrite <- !app_assoc.
Qed.

Lemma join_neighbours (sep : pystr) (parts : list pystr) (i : nat)
    (p p' : pystr) :
  parts !! i = Some p → parts !! S i = Some p' →
  ∃ pre post, join sep parts = pre ++ p ++ sep ++ p' ++ post.
Proof.
  revert i. induction parts as [|q parts IH]; intros i Hi Hi'; [done|].
  destruct parts as [|q' parts]; [done|].
  destruct i as [|i]; simpl in Hi, Hi'.
  - injection Hi as ->. injection Hi' as ->. exists []. cbn [join app].
    destruct parts.
    + exists []. by rewrite app_nil_r.
    + eauto.
  - destruct (IH i Hi Hi') as (pre & post & Hj).
    exists (q ++ sep ++ pre), post. cbn [join] in *. rewrite Hj.
    by rewrite <- !app_assoc.
Qed.

Section app_facts.

Variable ieq : N → N → bool.
Variable repr_str : pystr → pystr.
Variable format_prompt : pystr → list pystr → pystr → option pystr.
Variable service : list event → pystr → pystr → option pystr.

(** ** Completed runs *)

(** A guard of the script that let the run [H] through: its test failed. *)
Ltac pass_guard H :=
  unfold script_bind at 1 in H;
  case_bool_decide; [done|];
  unfold script_ret at 1 in H.

Lemma py_enumerate_snd {A} (l : list A) (s : Z) :
  snd <$> py_enumerate s l = l.
Proof.
  revert s. induction l as [|x l IH]; intros s; simpl; [done|].
  by rewrite IH.
Qed.

(** Pass 1 appends one trimmed answer per chunk, in the order of the
    chunks. *)
Lemma pass1_outputs (template : pystr) (target_services : list pystr)
    (model : pystr) (todo : list (Z * pystr)) (acc : list pystr)
    (log log' : list event) (outs : list pystr) :
  pass1 format_prompt service template target_services model todo acc log
  = (inr outs, log') →
  ∃ news,
    outs = acc ++ news
    ∧ Forall2 (answers format_prompt service template target_services model)
        (snd <$> todo) news.
Proof.
  revert acc log. induction todo as [|[idx chunk] todo IH]; intros acc log.
  - cbn [pass1]. unfold script_ret. intros [= <- <-].
    exists []. split; [by rewrite app_nil_r|constructor].
  - cbn [pass1]. unfold script_bind at 1, or_raise.
    destruct (format_prompt template target_services chunk)
      as [prompt|] eqn:Hfmt; [|done].
    unfold script_bind at 1, call_openai_responses.
    destruct (service log model prompt) as [resp|] eqn:Hsvc; [|done].
    intros Hrest. apply IH in Hrest as (news & -> & Hall).
    exists (strip resp :: news). split; [by rewrite <- app_assoc|].
    constructor; [|done]. exists prompt, log, resp. done.
Qed.

(** A run that completes has chunked the filtered text, collected the
    trimmed answers in the order of the chunks, and sent, as its last call,
    the synthesis prompt built from those answers. *)
Lemma run_completed (inp : inputs) (log log' : list event) (rep : report) :
  run ieq repr_str format_prompt service inp log = (inr rep, log') →
  ∃ filtered_text,
    filtered_text_of ieq inp = Some filtered_text
    ∧ chunks rep = chunk_text_by_chars filtered_text (chunk_size inp)
    ∧ Forall2 (answers format_prompt service (prompt_template inp)
                 (parse_target_services (raw_services inp))
                 (strip (model inp)))
        (chunks rep) (chunk_outputs rep)
    ∧ synthesis_prompt repr_str (parse_target_services (raw_services inp))
        (chunk_outputs rep)
      = Some (synth_prompt rep)
    ∧ last log' = Some (Called (strip (model inp)) (synth_prompt rep)).
Proof.
  unfold run, filtered_text_of. intros Hrun.
  destruct (uploaded inp) as [text|]; [|done].
  cbn [mbind option_bind].
  unfold script_bind at 1, or_raise in Hrun.
  destruct (filter_lines_with_context _ _ _ _ _) as [res|]; [|done].
  cbn [mbind option_bind]. eexists. split; [done|].
  do 2 pass_guard Hrun.
  unfold script_bind at 1 in Hrun.
  destruct (analyze inp); [|done]. unfold script_ret at 1 in Hrun.
  pass_guard Hrun.
  unfold script_bind at 1 in Hrun.
  destruct (pass1 _ _ _ _ _ _ _ _) as [[h|outs] log1] eqn:Hpass; [done|].
  apply pass1_outputs in Hpass as (news & -> & Hall).
  rewrite py_enumerate_snd in Hall. cbn [app] in *.
  unfold script_bind at 1, or_raise in Hrun.
  destruct (synthesis_prompt _ _ _) as [prompt|] eqn:Hsyn; [|done].
  unfold script_bind at 1, call_openai_responses in Hrun.
  destruct (service log1 _ prompt) as [resp|]; [|done].
  unfold script_ret in Hrun. injection Hrun as <- <-. cbn.
  split; [done|]. split; [done|]. split; [done|]. apply last_snoc.
Qed.

(** C8 (Scenario E, synthesis order): the synthesis prompt is always built.
    Between the text of the template it holds the labeled blocks of the
    results, numbered from one, in the order of the results, joined by one
    and the same separator: every block occurs in it, and every two
    consecutive blocks occur next to each other with the separator between
    them.  For three results X, Y, Z these are the blocks of 1, 2 and 3, in
    that order. *)
Theorem synthesis_prompt_blocks_in_order
    (target_services results : list pystr) :
  ∃ prompt,
    synthesis_prompt repr_str target_services results = Some prompt
    ∧ prompt = synthesis_head ++ py_str_list repr_str target_services
               ++ synthesis_mid
               ++ join SEPARATOR (blocks_from 1 results) ++ [10%N]
    ∧ (∀ (i : nat) (r : pystr),
         results !! i = Some r →
         ∃ pre post,
           prompt = pre ++ chunk_block (Z.of_nat i + 1) r ++ post)
    ∧ (∀ (i : nat) (r r' : pystr),
         results !! i = Some r → results !! S i = Some r' →
         ∃ pre post,
           prompt = pre ++ chunk_block (Z.of_nat i + 1) r ++ SEPARATOR
                    ++ chunk_block (Z.of_nat i + 2) r' ++ post)
    ∧ (∀ X Y Z : pystr,
         results = [X; Y; Z] →
         join SEPARATOR (blocks_from 1 results)
         = (lit "Chunk 1 analysis:" ++ [10%N] ++ X) ++ SEPARATOR
           ++ (lit "Chunk 2 analysis:" ++ [10%N] ++ Y) ++ SEPARATOR
           ++ (lit "Chunk 3 analysis:" ++ [10%N] ++ Z))
    ∧ (∀ (inp : inputs) (log log' : list event) (rep : report),
         run ieq repr_str format_prompt service inp log = (inr rep, log') →
         parse_target_services (raw_services inp) = target_services →
         chunk_outputs rep = results →
         Forall2 (answers format_prompt service (prompt_template inp)
                    target_services (strip (model inp)))
           (chunks rep) results
         ∧ synth_prompt rep = prompt
         ∧ last log' = Some (Called (strip (model inp)) prompt)).
Proof.
  assert (synthesis_prompt repr_str target_services results
          = Some (synthesis_head ++ py_str_list repr_str target_services
                  ++ synthesis_mid
                  ++ join SEPARATOR (blocks_from 1 results) ++ [10%N]))
    as Hprompt.
  { unfold synthesis_prompt. rewrite joined_blocks.
    cbn [mbind option_bind]. by rewrite format_synthesis. }
  eexists. split; [exact Hprompt|]. split; [done|].
  set (head := synthesis_head ++ py_str_list repr_str target_services
               ++ synthesis_mid).
  split; [|split; [|split]].
  - intros i r Hr.
    destruct (join_part SEPARATOR (blocks_from 1 results) i
                (chunk_block (Z.of_nat i + 1) r)) as (pre & post & Hj).
    { rewrite blocks_from_lookup, Hr. simpl. do 2 f_equal. lia. }
    exists (head ++ pre), (post ++ [10%N]). subst head. rewrite Hj.
    by rewrite <- !app_assoc.
  - intros i r r' Hr Hr'.
    destruct (join_neighbours SEPARATOR (blocks_from 1 results) i
                (chunk_block (Z.of_nat i + 1) r)
                (chunk_block (Z.of_nat i + 2) r')) as (pre & post & Hj).
    { rewrite blocks_from_lookup, Hr. simpl. do 2 f_equal. lia. }
    { rewrite blocks_from_lookup, Hr'. simpl. do 2 f_equal. lia. }
    exists (head ++ pre), (post ++ [10%N]). subst head. rewrite Hj.
    by rewrite <- !app_assoc.
  - intros X Y Z ->. cbn [blocks_from join]. unfold chunk_block.
    change (py_str_int 1) with (lit "1").
    change (py_str_int (1 + 1)) with (lit "2").
    change (py_str_int (1 + 1 + 1)) with (lit "3").
    by rewrite <- !app_assoc.
  - intros inp log log' rep Hrun <- <-.
    destruct (run_completed inp log log' rep Hrun)
      as (ft & _ & _ & Hans & Hsyn & Hlast).
    rewrite Hprompt in Hsyn. apply (inj Some) in Hsyn.
    split; [done|]. split; [done|]. by rewrite Hsyn.
Qed.


End app_facts.

(** ** The theorems at sample inputs *)

Lemma hit_iff_literal_substring_witness :
  [lit "svc1"] ≠ []
  ∧ ∃ hit_idxs,
      hit_index_list ascii_ieq scenario_lines [lit "svc1"] = Some hit_idxs
      ∧ ∀ i : Z,
          i ∈ hit_idxs
          ↔ 0 ≤ i ∧ ∃ line, scenario_lines !! Z.to_nat i = Some line
                            ∧ ∃ tok, tok ∈ [lit "svc1"]
                                     ∧ ci_substring ascii_ieq tok line.
Proof.
  split; [discriminate|].
  destruct (hit_iff_literal_substring ascii_ieq scenario_lines [lit "svc1"])
    as (_ & hits & Hhits & Hiff & _); [discriminate|].
  exists hits. split; [exact Hhits|exact Hiff].
Defined.

Lemma keep_set_is_union_of_windows_witness :
  0 ≤ 1
  ∧ ∃ hit_idxs keep,
      hit_index_list ascii_ieq scenario_lines [lit "SVC1"] = Some hit_idxs
      ∧ keep_index_set ascii_ieq scenario_lines [lit "SVC1"] 1 = Some keep
      ∧ ∀ j : Z,
          j ∈ keep
          ↔ ∃ h, h ∈ hit_idxs
                 ∧ Z.max 0 (h - 1) ≤ j ≤ Z.min (py_len scenario_lines - 1) (h + 1).
Proof.
  split; [lia|].
  destruct (keep_set_is_union_of_windows ascii_ieq scenario_lines
              [lit "SVC1"] 1) as (hits & keep & Hhits & Hkeep & Hwin & _).
  exists hits, keep. split; [exact Hhits|]. split; [exact Hkeep|].
  apply Hwin. lia.
Defined.

Lemma truncation_safeguard_witness :
  0 < 4
  ∧ ∃ keep full filtered hit_count,
      keep_index_set ascii_ieq scenario_lines [lit "SVC1"] 1 = Some keep
      ∧ 4 < Z.of_nat (size keep)
      ∧ filtered_uncapped ascii_ieq scenario_lines [lit "SVC1"] 1 = Some full
      ∧ filter_lines_with_context ascii_ieq scenario_lines [lit "SVC1"] 1 4
        = Some (filtered, hit_count)
      ∧ py_len filtered = 4
      ∧ filtered = take (Z.to_nat 4) full.
Proof.
  split; [lia|].
  destruct (truncation_safeguard ascii_ieq scenario_lines [lit "SVC1"] 1 4)
    as (hits & keep & full & filtered & _ & Hkeep & Hfull & Hres & Hcap).
  assert (4 < Z.of_nat (size keep)) as Hbig.
  { rewrite keep_index_set_eq in Hkeep. apply (inj Some) in Hkeep.
    rewrite <- Hkeep. vm_compute. reflexivity. }
  exists keep, full, filtered. eexists.
  split; [exact Hkeep|]. split; [exact Hbig|]. split; [exact Hfull|].
  split; [exact Hres|]. apply Hcap; [lia|exact Hbig].
Defined.

(** C5 as first stated fails where the cap is zero: the keep set of this
    call has one index, more than the cap of zero, and the call returns that
    one line, not zero lines. *)
Lemma truncation_fails_at_zero_cap :
  keep_index_set ascii_ieq [lit "a"] [lit "a"] 0 = Some {[0]}
  ∧ 0 < Z.of_nat (size ({[0]} : gset Z))
  ∧ filter_lines_with_context ascii_ieq [lit "a"] [lit "a"] 0 0
    = Some ([lit "a"], 1)
  ∧ py_len [lit "a"] ≠ 0.
Proof.
  split; [|split; [|split]].
  - vm_compute. reflexivity.
  - rewrite size_singleton. lia.
  - vm_compute. reflexivity.
  - unfold py_len. simpl. lia.
Qed.

Lemma synthesis_prompt_blocks_in_order_witness :
  [lit "X"; lit "Y"; lit "Z"] !! 0%nat = Some (lit "X")
  ∧ [lit "X"; lit "Y"; lit "Z"] !! 1%nat = Some (lit "Y")
  ∧ ∃ prompt pre post,
      synthesis_prompt quote_repr [lit "svc1"] [lit "X"; lit "Y"; lit "Z"]
      = Some prompt
      ∧ prompt = pre ++ chunk_block 1 (lit "X") ++ SEPARATOR
                 ++ chunk_block 2 (lit "Y") ++ post.
Proof.
  split; [reflexivity|]. split; [reflexivity|].
  destruct (synthesis_prompt_blocks_in_order ascii_ieq quote_repr
              (plain_format_prompt quote_repr) counting_service [lit "svc1"] [lit "X"; lit "Y"; lit "Z"])
    as (prompt & Hprompt & _ & _ & Hnext & _).
  destruct (Hnext 0%nat (lit "X") (lit "Y")) as (pre & post & Hp);
    [reflexivity|reflexivity|].
  exists prompt, pre, post. split; [exact Hprompt|exact Hp].
Defined.


(** * Further properties of the utilities and of the script *)

(** ** Trimming *)

Lemma lstrip_with_split (p : N → bool) (s : pystr) :
  ∃ ws, s = ws ++ lstrip_with p s ∧ Forall (λ c, p c = true) ws.
Proof.
  induction s as [|c s (ws & Hs & Hws)]; [by exists []|].
  simpl. destruct (p c) eqn:Hc.
  - exists (c :: ws). split; [by rewrite Hs at 1|by constructor].
  - by exists [].
Qed.

Lemma lstrip_with_head (p : N → bool) (s : pystr) (c : N) :
  head (lstrip_with p s) = Some c → p c = false.
Proof.
  induction s as [|d s IH]; [done|]. simpl.
  destruct (p d) eqn:Hd; [done|]. simpl. by intros [= <-].
Qed.

Lemma lstrip_with_id (p : N → bool) (s : pystr) :
  (∀ c, head s = Some c → p c = false) → lstrip_with p s = s.
Proof. destruct s as [|c s]; [done|]. simpl. intros H. by rewrite H. Qed.

Lemma lstrip_with_nil (p : N → bool) (s : pystr) :
  lstrip_with p s = [] ↔ Forall (λ c, p c = true) s.
Proof.
  induction s as [|c s IH]; simpl; [by split; [constructor|]|].
  destruct (p c) eqn:Hc.
  - rewrite IH. split; [by constructor|by inversion 1].
  - split; [done|]. inversion 1; congruence.
Qed.

Lemma rstrip_with_split (p : N → bool) (s : pystr) :
  ∃ ws, s = rstrip_with p s ++ ws ∧ Forall (λ c, p c = true) ws.
Proof.
  unfold rstrip_with.
  destruct (lstrip_with_split p (reverse s)) as (ws & Hs & Hws).
  exists (reverse ws). split; [|by apply Forall_reverse].
  rewrite <- reverse_app, <- Hs. by rewrite reverse_involutive.
Qed.

Lemma rstrip_with_last (p : N → bool) (s : pystr) (c : N) :
  last (rstrip_with p s) = Some c → p c = false.
Proof. unfold rstrip_with. rewrite last_reverse. apply lstrip_with_head. Qed.

Lemma rstrip_with_id (p : N → bool) (s : pystr) :
  (∀ c, last s = Some c → p c = false) → rstrip_with p s = s.
Proof.
  intros H. unfold rstrip_with. rewrite lstrip_with_id.
  - apply reverse_involutive.
  - intros c. rewrite head_reverse. apply H.
Qed.

Lemma rstrip_with_nil (p : N → bool) (s : pystr) :
  rstrip_with p s = [] ↔ Forall (λ c, p c = true) s.
Proof.
  unfold rstrip_with. rewrite <- (Forall_reverse _ s), <- lstrip_with_nil.
  split; [|by intros ->].
  intros H. apply (f_equal reverse) in H. by rewrite reverse_involutive in H.
Qed.

(** Removing a suffix of a non-empty result keeps the first character. *)
Lemma rstrip_with_head (p : N → bool) (s : pystr) (c : N) :
  head (rstrip_with p s) = Some c → head s = Some c.
Proof.
  destruct (rstrip_with_split p s) as (ws & Hs & _). intros Hc.
  rewrite Hs. destruct (rstrip_with p s); [done|]. done.
Qed.

(** A trimmed text begins and ends with a character that is not
    whitespace. *)
Lemma strip_ends (s : pystr) (c : N) :
  head (strip s) = Some c ∨ last (strip s) = Some c → is_space c = false.
Proof.
  unfold strip. intros [H|H].
  - apply rstrip_with_head in H. by apply lstrip_with_head in H.
  - by apply rstrip_with_last in H.
Qed.

(** A text whose ends are not whitespace is its own trimmed form. *)
Lemma strip_id (s : pystr) :
  (∀ c, head s = Some c ∨ last s = Some c → is_space c = false) →
  strip s = s.
Proof.
  intros H. unfold strip.
  rewrite (lstrip_with_id is_space s) by (intros c Hc; apply H; by left).
  apply rstrip_with_id. intros c Hc. apply H. by right.
Qed.

Lemma strip_idempotent (s : pystr) : strip (strip s) = strip s.
Proof. apply strip_id. intros c. apply strip_ends. Qed.

(** Trimming leaves nothing exactly when every character is whitespace. *)
Lemma strip_nil (s : pystr) :
  strip s = [] ↔ Forall (λ c, is_space c = true) s.
Proof.
  unfold strip. rewrite rstrip_with_nil.
  destruct (lstrip_with_split is_space s) as (ws & Hs & Hws). split.
  - intros Hall. rewrite Hs. apply Forall_app. split; [done|].
    destruct (lstrip_with is_space s) as [|c t] eqn:Ht; [done|].
    pose proof (lstrip_with_head is_space s c) as Hc. rewrite Ht in Hc.
    specialize (Hc eq_refl). inversion Hall; congruence.
  - intros Hall. apply lstrip_with_nil in Hall. rewrite Hall. constructor.
Qed.

(** The characters of the trimmed text are characters of the text. *)
Lemma elem_of_strip (s : pystr) (c : N) : c ∈ strip s → c ∈ s.
Proof.
  unfold strip. intros Hc.
  destruct (rstrip_with_split is_space (lstrip_with is_space s))
    as (ws & Hs & _).
  destruct (lstrip_with_split is_space s) as (ws' & Hs' & _).
  rewrite Hs', Hs. set_solver.
Qed.

(** Whitespace around a text does not change its trimmed form. *)
Lemma strip_padding (ws ws' s : pystr) :
  Forall (λ c, is_space c = true) ws → Forall (λ c, is_space c = true) ws' →
  strip s = s → strip (ws ++ s ++ ws') = s.
Proof.
  intros Hws Hws' Hs. destruct s as [|c s].
  { simpl. apply strip_nil. by apply Forall_app. }
  assert (is_space c = false) as Hc.
  { apply (strip_ends (c :: s)). left. by rewrite Hs. }
  unfold strip.
  assert (lstrip_with is_space (ws ++ (c :: s) ++ ws') = (c :: s) ++ ws')
    as ->.
  { induction Hws as [|w ws Hw _ IH]; simpl.
    - by rewrite Hc.
    - by rewrite Hw. }
  unfold rstrip_with. rewrite reverse_app.
  assert (∀ t, lstrip_with is_space (reverse ws' ++ t)
               = lstrip_with is_space t) as Hdrop.
  { intros t. apply Forall_reverse in Hws'.
    induction Hws' as [|w l Hw _ IH]; simpl; [done|]. by rewrite Hw. }
  rewrite Hdrop. fold (rstrip_with is_space (c :: s)).
  apply rstrip_with_id. intros d Hd.
  apply (strip_ends (c :: s)). right. by rewrite Hs.
Qed.

(** ** Splitting at a separator *)

Lemma split_on_not_nil (sep : N) (s cur : pystr) : split_on sep s cur ≠ [].
Proof.
  revert cur. induction s as [|c s IH]; intros cur; simpl; [done|].
  destruct (c =? sep)%N; [done|apply IH].
Qed.

(** Joining the fields with the separator gives the text back. *)
Lemma join_split_on (sep : N) (s cur : pystr) :
  join [sep] (split_on sep s cur) = reverse cur ++ s.
Proof.
  revert cur. induction s as [|c s IH]; intros cur; simpl.
  - by rewrite app_nil_r.
  - destruct (N.eqb_spec c sep) as [->|Hne].
    + pose proof (split_on_not_nil sep s []) as Hnn.
      cbn [join]. destruct (split_on sep s []) as [|f fs] eqn:Hf; [done|].
      rewrite <- Hf, IH. done.
    + rewrite IH, reverse_cons, <- app_assoc. done.
Qed.

(** No field holds the separator. *)
Lemma split_on_no_sep (sep : N) (s cur : pystr) :
  sep ∉ cur → Forall (λ f, sep ∉ f) (split_on sep s cur).
Proof.
  revert cur. induction s as [|c s IH]; intros cur Hcur; simpl.
  - constructor; [|done]. by rewrite elem_of_reverse.
  - destruct (N.eqb_spec c sep) as [->|Hne].
    + constructor; [by rewrite elem_of_reverse|]. apply IH, not_elem_of_nil.
    + apply IH, not_elem_of_cons. split; [congruence|done].
Qed.

Lemma split_on_app (sep : N) (f s cur : pystr) :
  sep ∉ f → split_on sep (f ++ s) cur = split_on sep s (reverse f ++ cur).
Proof.
  revert cur. induction f as [|c f IH]; intros cur Hf; [done|].
  simpl. destruct (N.eqb_spec c sep) as [->|_]; [set_solver|].
  rewrite IH by set_solver. by rewrite reverse_cons, <- app_assoc.
Qed.

(** Splitting a joined list of fields free of the separator gives the
    fields back. *)
Lemma split_on_join (sep : N) (fields : list pystr) :
  fields ≠ [] → Forall (λ f, sep ∉ f) fields →
  split_on sep (join [sep] fields) [] = fields.
Proof.
  intros Hne Hall. induction Hall as [|f fields Hf Hall IH]; [done|].
  destruct fields as [|g fields].
  - simpl. rewrite <- (app_nil_r f) at 1. rewrite split_on_app by done.
    simpl. by rewrite app_nil_r, reverse_involutive.
  - cbn [join]. rewrite split_on_app by done. simpl.
    rewrite N.eqb_refl, app_nil_r, reverse_involutive. f_equal.
    by apply IH.
Qed.

(** ** [parse_target_services] *)

(** X1: Every token returned is non-empty, has no whitespace at either end and
    holds no comma. *)
Theorem parse_target_services_tokens_clean (raw tok : pystr) :
  tok ∈ parse_target_services raw →
  tok ≠ [] ∧ strip tok = tok ∧ 44%N ∉ tok.
Proof.
  unfold parse_target_services. intros Htok.
  apply list_elem_of_filter in Htok as [Hne Htok].
  apply list_elem_of_fmap in Htok as (f & -> & Hf).
  split; [done|]. split; [apply strip_idempotent|].
  intros Hc. apply elem_of_strip in Hc.
  assert (Forall (λ f, 44%N ∉ f) (split_on 44 raw [])) as Hall
    by (apply split_on_no_sep; set_solver).
  rewrite Forall_forall in Hall. by apply (Hall f).
Qed.

Lemma parse_target_services_tokens_clean_witness :
  lit "tai6-manager" ∈ parse_target_services (lit "freeswitch, tai6-manager,")
  ∧ lit "tai6-manager" ≠ [] ∧ strip (lit "tai6-manager") = lit "tai6-manager"
  ∧ 44%N ∉ lit "tai6-manager".
Proof.
  assert (lit "tai6-manager"
          ∈ parse_target_services (lit "freeswitch, tai6-manager,")) as Hin.
  { apply (bool_decide_unpack _). vm_compute. reflexivity. }
  split; [exact Hin|].
  exact (parse_target_services_tokens_clean _ _ Hin).
Defined.

(** X2: Parsing is a left inverse of joining with commas: clean tokens, each
    written with any whitespace around it and separated by commas, are read
    back unchanged and in order. *)
Theorem parse_target_services_round_trip (tokens fields : list pystr) :
  Forall2 (λ tok field,
             tok ≠ [] ∧ strip tok = tok ∧ (44%N ∉ tok)
             ∧ ∃ ws ws', field = ws ++ tok ++ ws'
                         ∧ Forall (λ c, is_space c = true) (ws ++ ws'))
    tokens fields →
  parse_target_services (join [44%N] fields) = tokens.
Proof.
  intros Hall. unfold parse_target_services.
  destruct fields as [|f0 fields0] eqn:Hfields.
  { inversion Hall; subst. reflexivity. }
  rewrite <- Hfields in *. rewrite split_on_join.
  - clear Hfields. induction Hall as [|tok field tokens fields H _ IH];
      [done|].
    destruct H as (Hne & Htrim & _ & ws & ws' & -> & Hws).
    apply Forall_app in Hws as [Hws Hws'].
    rewrite fmap_cons, filter_cons, strip_padding by done.
    rewrite decide_True by done. by rewrite IH.
  - by rewrite Hfields.
  - eapply Forall2_Forall_r; [exact Hall|]. apply Forall_forall.
    intros tok _ field (_ & _ & Hc & ws & ws' & -> & Hws).
    apply Forall_app in Hws as [Hws Hws'].
    rewrite Forall_forall in Hws, Hws'.
    intros Hin. apply elem_of_app in Hin as [Hin|Hin];
      [by specialize (Hws _ Hin)|].
    apply elem_of_app in Hin as [Hin|Hin]; [done|by specialize (Hws' _ Hin)].
Qed.

Lemma elem_of_join_1 (sep : pystr) (parts : list pystr) (c : N) :
  c ∈ join sep parts → c ∈ sep ∨ ∃ p, p ∈ parts ∧ c ∈ p.
Proof.
  induction parts as [|p parts IH]; [by intros ?%elem_of_nil|].
  destruct parts as [|q parts].
  - simpl. intros Hc. right. exists p. split; [by left|done].
  - cbn [join]. rewrite !elem_of_app. intros [Hc|[Hc|Hc]].
    + right. exists p. split; [by left|done].
    + by left.
    + destruct (IH Hc) as [?|(r & Hr & Hcr)]; [by left|].
      right. exists r. split; [by right|done].
Qed.

Lemma elem_of_join_2 (sep : pystr) (parts : list pystr) (p : pystr) (c : N) :
  p ∈ parts → c ∈ p → c ∈ join sep parts.
Proof.
  intros Hp Hc. induction parts as [|q parts IH]; [by apply elem_of_nil in Hp|].
  destruct parts as [|r parts].
  - apply list_elem_of_singleton in Hp as ->. done.
  - cbn [join]. rewrite !elem_of_app.
    apply elem_of_cons in Hp as [->|Hp]; [by left|]. right. right. by apply IH.
Qed.

(** X3: No token comes back exactly when the text holds nothing but whitespace
    and commas. *)
Theorem parse_target_services_nothing (raw : pystr) :
  parse_target_services raw = []
  ↔ Forall (λ c, is_space c = true ∨ c = 44%N) raw.
Proof.
  unfold parse_target_services.
  pose proof (join_split_on 44 raw []) as Hjoin. simpl in Hjoin.
  assert (Forall (λ f, 44%N ∉ f) (split_on 44 raw [])) as Hnosep
    by (apply split_on_no_sep; set_solver).
  set (fields := split_on 44 raw []) in *.
  assert (filter (λ p : pystr, p ≠ []) (strip <$> fields) = []
          ↔ Forall (Forall (λ c, is_space c = true)) fields) as ->.
  { clear. induction fields as [|f fields IH]; [by split; [constructor|]|].
    rewrite fmap_cons, filter_cons. case_decide as Hf.
    - split; [done|]. inversion 1 as [|? ? Hsp _]; subst.
      by apply strip_nil in Hsp.
    - rewrite IH. apply strip_nil in Hf.
      split; [by constructor|by inversion 1]. }
  rewrite <- Hjoin, !Forall_forall. rewrite Forall_forall in Hnosep. split.
  - intros Hall c Hc.
    apply elem_of_join_1 in Hc as [Hc|(f & Hf & Hc)].
    + right. by apply list_elem_of_singleton in Hc.
    + left. specialize (Hall f Hf). rewrite Forall_forall in Hall. auto.
  - intros Hall f Hf. apply Forall_forall. intros c Hc.
    destruct (Hall c) as [?| ->]; [by eapply elem_of_join_2|done|].
    by destruct (Hnosep f Hf).
Qed.

Lemma parse_target_services_round_trip_witness :
  Forall2 (λ tok field,
             tok ≠ [] ∧ strip tok = tok ∧ (44%N ∉ tok)
             ∧ ∃ ws ws', field = ws ++ tok ++ ws'
                         ∧ Forall (λ c, is_space c = true) (ws ++ ws'))
    [lit "freeswitch"; lit "tai6-manager"]
    [lit "freeswitch"; lit " tai6-manager"]
  ∧ parse_target_services (lit "freeswitch, tai6-manager")
    = [lit "freeswitch"; lit "tai6-manager"].
Proof.
  assert (Forall2 (λ tok field,
             tok ≠ [] ∧ strip tok = tok ∧ (44%N ∉ tok)
             ∧ ∃ ws ws', field = ws ++ tok ++ ws'
                         ∧ Forall (λ c, is_space c = true) (ws ++ ws'))
            [lit "freeswitch"; lit "tai6-manager"]
            [lit "freeswitch"; lit " tai6-manager"]) as Hall.
  { constructor; [|constructor; [|constructor]].
    - split; [discriminate|]. split; [reflexivity|].
      split; [apply (bool_decide_unpack _); vm_compute; exact I|].
      exists [], []. split; [reflexivity|constructor].
    - split; [discriminate|]. split; [reflexivity|].
      split; [apply (bool_decide_unpack _); vm_compute; exact I|].
      exists [32%N], []. split; [reflexivity|].
      constructor; [reflexivity|constructor]. }
  split; [exact Hall|].
  exact (parse_target_services_round_trip _ _ Hall).
Defined.

(** ** More on the chunker *)

(** With a positive size, the chunks are the consecutive pieces of the
    trimmed text, and there are [ceil(len / chunk_size)] of them. *)
Lemma chunks_positive (T : pystr) (k : Z) :
  0 < k → strip T ≠ [] →
  let n := py_len (strip T) in
  let m := (n + k - 1) / k in
  chunk_text_by_chars T k
  = (λ j, take (Z.to_nat k) (drop (j * Z.to_nat k) (strip T)))
      <$> seq 0 (Z.to_nat m)
  ∧ (m - 1) * k < n ≤ m * k.
Proof.
  intros Hk Hne n m. subst n m. unfold chunk_text_by_chars.
  destruct (strip T) as [|c0 t0]; [done|]. set (t := c0 :: t0).
  destruct (Z.leb_spec k 0) as [?|_]; [lia|].
  assert (0 < py_len t) as Hpos by (unfold py_len; simpl; lia).
  rewrite chunks_as_pieces by done.
  destruct (Z.ltb_spec 0 (py_len t)) as [_|?]; [|lia].
  replace (py_len t - 0 + k - 1) with (py_len t + k - 1) by lia.
  split; [done|].
  pose proof (chunk_count_bounds (py_len t) k Hpos Hk) as Hb. simpl in Hb.
  replace (py_len t - 0 + k - 1) with (py_len t + k - 1) in Hb by lia. lia.
Qed.

(** X4: No chunk is empty; with a positive size no chunk is longer than the
    size, and the number of chunks is the length of the trimmed text
    divided by the size, rounded up. *)
Theorem chunks_nonempty_and_bounded (T : pystr) (chunk_size : Z) :
  (∀ c, c ∈ chunk_text_by_chars T chunk_size →
        c ≠ [] ∧ (0 < chunk_size → py_len c ≤ chunk_size))
  ∧ (0 < chunk_size →
     py_len (chunk_text_by_chars T chunk_size)
     = (py_len (strip T) + chunk_size - 1) / chunk_size).
Proof.
  destruct (decide (strip T = [])) as [Hnil|Hne].
  { unfold chunk_text_by_chars. rewrite Hnil. split.
    - by intros c ?%elem_of_nil.
    - intros Hk. change (py_len []) with 0.
      symmetry. apply Z.div_small. lia. }
  destruct (Z.le_gt_cases chunk_size 0) as [Hk|Hk].
  { rewrite chunk_disable_nonpositive by done. split; [|lia].
    intros c ->%list_elem_of_singleton. split; [done|lia]. }
  destruct (chunks_positive T chunk_size Hk Hne) as [-> [Hlo Hhi]].
  pose proof (py_len_nonneg (strip T)) as Hn.
  set (n := py_len (strip T)) in *.
  set (m := (n + chunk_size - 1) / chunk_size) in *.
  assert (0 ≤ m) by nia. split.
  - intros c Hc. apply list_elem_of_fmap in Hc as (j & -> & Hj).
    apply elem_of_seq in Hj as [_ Hj]. simpl in Hj.
    assert (0 < length (take (Z.to_nat chunk_size)
                          (drop (j * Z.to_nat chunk_size) (strip T))))%nat
      as Hlen.
    { rewrite length_take, length_drop. subst n. unfold py_len in *. nia. }
    split.
    + intros Hnil. rewrite Hnil in Hlen. simpl in Hlen. lia.
    + intros _. unfold py_len. rewrite length_take. lia.
  - intros _. unfold py_len. rewrite length_fmap, length_seq. lia.
Qed.

Lemma chunks_nonempty_and_bounded_witness :
  lit "gh" ∈ chunk_text_by_chars (lit " abcdefgh ") 3
  ∧ 0 < 3
  ∧ lit "gh" ≠ [] ∧ py_len (lit "gh") ≤ 3
  ∧ py_len (chunk_text_by_chars (lit " abcdefgh ") 3)
    = (py_len (strip (lit " abcdefgh ")) + 3 - 1) / 3.
Proof.
  assert (lit "gh" ∈ chunk_text_by_chars (lit " abcdefgh ") 3) as Hin
    by (apply (bool_decide_unpack _); vm_compute; exact I).
  destruct (chunks_nonempty_and_bounded (lit " abcdefgh ") 3)
    as [Hchunk Hcount].
  destruct (Hchunk _ Hin) as [Hne Hle].
  split; [exact Hin|]. split; [lia|]. split; [exact Hne|].
  split; [apply Hle; lia|apply Hcount; lia].
Defined.

(** X5: A trimmed text that fits in one chunk is sent whole. *)
Theorem short_text_is_one_chunk (T : pystr) (chunk_size : Z) :
  strip T ≠ [] → py_len (strip T) ≤ chunk_size →
  chunk_text_by_chars T chunk_size = [strip T].
Proof.
  intros Hne Hfit.
  assert (0 < py_len (strip T)) as Hpos.
  { unfold py_len. destruct (strip T); [done|simpl; lia]. }
  assert (0 < chunk_size) as Hk by lia.
  destruct (chunks_positive T chunk_size Hk Hne) as [-> [Hlo Hhi]].
  set (m := (py_len (strip T) + chunk_size - 1) / chunk_size) in *.
  assert (m = 1) as ->.
  { destruct (Z.lt_trichotomy m 1) as [?|[?|?]]; [|done|].
    - assert (m * chunk_size ≤ 0) by nia. lia.
    - assert (chunk_size ≤ (m - 1) * chunk_size) by nia. lia. }
  simpl. rewrite drop_0, take_ge; [done|]. unfold py_len in Hfit. lia.
Qed.

Lemma short_text_is_one_chunk_witness :
  strip (lit " abc ") ≠ [] ∧ py_len (strip (lit " abc ")) ≤ 20000
  ∧ chunk_text_by_chars (lit " abc ") 20000 = [lit "abc"].
Proof.
  assert (strip (lit " abc ") ≠ []) as Hne by (vm_compute; discriminate).
  assert (py_len (strip (lit " abc ")) ≤ 20000) as Hfit
    by (vm_compute; discriminate).
  split; [exact Hne|]. split; [exact Hfit|].
  exact (short_text_is_one_chunk (lit " abc ") 20000 Hne Hfit).
Defined.

(** The trimmed text sits in the text between two runs of whitespace. *)
Lemma strip_split (s : pystr) :
  ∃ ws ws', s = ws ++ strip s ++ ws'
            ∧ Forall (λ c, is_space c = true) ws
            ∧ Forall (λ c, is_space c = true) ws'.
Proof.
  destruct (lstrip_with_split is_space s) as (ws & Hs & Hws).
  destruct (rstrip_with_split is_space (lstrip_with is_space s))
    as (ws' & Hs' & Hws').
  exists ws, ws'. unfold strip. by rewrite <- Hs', <- Hs.
Qed.

(** X6: Whitespace before and after the text changes no chunk. *)
Theorem chunks_ignore_surrounding_whitespace (ws ws' T : pystr)
    (chunk_size : Z) :
  Forall (λ c, is_space c = true) ws → Forall (λ c, is_space c = true) ws' →
  chunk_text_by_chars (ws ++ T ++ ws') chunk_size
  = chunk_text_by_chars T chunk_size.
Proof.
  intros Hws Hws'.
  assert (strip (ws ++ T ++ ws') = strip T) as Hstrip.
  { destruct (strip_split T) as (a & b & HT & Ha & Hb).
    rewrite HT at 1.
    replace (ws ++ (a ++ strip T ++ b) ++ ws')
      with ((ws ++ a) ++ strip T ++ (b ++ ws'))
      by (by rewrite <- !app_assoc).
    apply strip_padding; [by apply Forall_app..|apply strip_idempotent]. }
  unfold chunk_text_by_chars. by rewrite Hstrip.
Qed.

Lemma chunks_ignore_surrounding_whitespace_witness :
  Forall (λ c, is_space c = true) [10; 32]%N
  ∧ Forall (λ c, is_space c = true) [9]%N
  ∧ chunk_text_by_chars ([10; 32]%N ++ lit "ab cd" ++ [9]%N) 2
    = chunk_text_by_chars (lit "ab cd") 2.
Proof.
  assert (Forall (λ c, is_space c = true) [10; 32]%N) as H1
    by (repeat constructor).
  assert (Forall (λ c, is_space c = true) [9]%N) as H2
    by (repeat constructor).
  split; [exact H1|]. split; [exact H2|].
  exact (chunks_ignore_surrounding_whitespace _ _ (lit "ab cd") 2 H1 H2).
Defined.

(** ** More on the filter *)

Lemma sorted_subset_sublist (l l' : list Z) :
  StronglySorted Z.lt l → StronglySorted Z.lt l' →
  (∀ x, x ∈ l → x ∈ l') → l `sublist_of` l'.
Proof.
  intros Hl Hl'. revert l Hl.
  induction Hl' as [|y l' _ IH Hy]; intros l Hl Hsub.
  - destruct l as [|x l]; [done|].
    exfalso. apply (not_elem_of_nil x), Hsub. by left.
  - destruct l as [|x l]; [apply sublist_nil_l|].
    apply StronglySorted_cons in Hl as [Hx Hl].
    rewrite Forall_forall in Hx, Hy.
    destruct (decide (x = y)) as [->|Hne].
    + apply sublist_skip, IH; [done|]. intros z Hz.
      assert (z ∈ y :: l') as Hz' by (apply Hsub; by right).
      apply elem_of_cons in Hz' as [->|?]; [|done].
      specialize (Hx _ Hz). lia.
    + apply sublist_cons, IH; [by apply StronglySorted_cons; rewrite Forall_forall|].
      intros z Hz. assert (z ∈ y :: l') as Hz' by by apply Hsub.
      apply elem_of_cons in Hz' as [->|?]; [|done].
      assert (x ∈ y :: l') as Hx' by (apply Hsub; by left).
      apply elem_of_cons in Hx' as [?|Hx']; [done|].
      specialize (Hy _ Hx').
      apply elem_of_cons in Hz as [->|Hz]; [lia|]. specialize (Hx _ Hz). lia.
Qed.

Lemma sorted_same_elements (l l' : list Z) :
  StronglySorted Z.lt l → StronglySorted Z.lt l' →
  (∀ x, x ∈ l ↔ x ∈ l') → l = l'.
Proof.
  intros Hl Hl' Heq.
  apply (StronglySorted_unique_strong Z.lt); [intros; lia|done..|].
  apply NoDup_Permutation; [by apply StronglySorted_lt_NoDup..|done].
Qed.

Lemma seqZ_increasing (m n : Z) : StronglySorted Z.lt (seqZ m n).
Proof.
  destruct (Z.le_gt_cases n 0) as [?|Hn].
  { rewrite seqZ_nil by done. constructor. }
  rewrite <- (Z2Nat.id n) by lia. generalize (Z.to_nat n). clear. intros k.
  revert m. induction k as [|k IH]; intros m; [constructor|].
  rewrite seqZ_cons by lia. constructor.
  - replace (Z.pred (Z.of_nat (S k))) with (Z.of_nat k) by lia. apply IH.
  - apply Forall_seqZ. intros. lia.
Qed.

(** The lines picked at given positions, as a function of the positions. *)
Lemma picked_fmap (lines : list pystr) (idxs : list Z) (out : list pystr) :
  Forall2 (picked lines) idxs out →
  out = (λ i, rstrip_nl (default [] (lines !! Z.to_nat i))) <$> idxs.
Proof.
  induction 1 as [|i o idxs out (_ & line & Hline & ->) _ IH]; [done|].
  rewrite fmap_cons, Hline. simpl. by rewrite IH.
Qed.

Lemma pick_all_lines (lines : list pystr) :
  (λ i, rstrip_nl (default [] (lines !! Z.to_nat i)))
    <$> seqZ 0 (py_len lines)
  = rstrip_nl <$> lines.
Proof.
  apply list_eq. intros k. rewrite !list_lookup_fmap.
  destruct (lines !! k) as [line|] eqn:Hk; simpl.
  - rewrite lookup_seqZ_lt.
    + simpl. by rewrite Z.add_0_l, Nat2Z.id, Hk.
    + apply lookup_lt_Some in Hk. unfold py_len. lia.
  - rewrite lookup_seqZ_ge; [done|].
    apply lookup_ge_None in Hk. unfold py_len. lia.
Qed.

Section filter_more.

Variable ieq : N → N → bool.

Lemma collect_hits_in_range (patterns : list Re.pattern)
    (lines : list pystr) (h : Z) :
  h ∈ collect_hits ieq patterns lines → 0 ≤ h < py_len lines.
Proof.
  intros (Hh & line & Hline & _)%elem_of_collect_hits.
  apply lookup_lt_Some in Hline. unfold py_len. lia.
Qed.

Lemma py_enumerate_length {A} (l : list A) (s : Z) :
  length (py_enumerate s l) = length l.
Proof. revert s. induction l; intros s; simpl; [done|]. by rewrite IHl. Qed.

Lemma collect_hits_length (patterns : list Re.pattern) (lines : list pystr) :
  py_len (collect_hits ieq patterns lines) ≤ py_len lines.
Proof.
  rewrite collect_hits_filter. unfold py_len. rewrite length_fmap.
  pose proof (length_filter (λ il : Z * pystr,
                any_search ieq patterns il.2 = true) (py_enumerate 0 lines)).
  rewrite py_enumerate_length in *. lia.
Qed.

(** The uncapped result, from the keep set. *)
Lemma filtered_uncapped_eq (lines tokens : list pystr) (radius : Z) :
  ∃ keep,
    keep_index_set ieq lines tokens radius = Some keep
    ∧ filtered_uncapped ieq lines tokens radius
      = Some ((λ i, rstrip_nl (default [] (lines !! Z.to_nat i)))
                <$> py_sorted keep)
    ∧ ∀ j, j ∈ keep → 0 ≤ j < py_len lines.
Proof.
  destruct (filter_lines_unfold ieq lines tokens radius 0)
    as (hits & keep & full & _ & Hkeep & Hfull & Hall & _).
  exists keep. split; [done|]. split.
  - rewrite Hfull. f_equal. by apply picked_fmap.
  - intros j Hj. rewrite keep_index_set_eq in Hkeep.
    apply (inj Some) in Hkeep. subst keep.
    by apply expand_hits_in_range in Hj.
Qed.

(** X7: With a context that is not negative every hit is kept, so the hit count
    is at most the number of kept lines, which is at most the number of
    lines. *)
Theorem hits_are_kept (lines tokens : list pystr) (radius : Z) :
  ∃ hit_idxs keep,
    hit_index_list ieq lines tokens = Some hit_idxs
    ∧ keep_index_set ieq lines tokens radius = Some keep
    ∧ (0 ≤ radius → ∀ h, h ∈ hit_idxs → h ∈ keep)
    ∧ (0 ≤ radius → py_len hit_idxs ≤ Z.of_nat (size keep))
    ∧ Z.of_nat (size keep) ≤ py_len lines
    ∧ py_len hit_idxs ≤ py_len lines.
Proof.
  eexists _, _. split; [apply hit_index_list_eq|].
  split; [apply keep_index_set_eq|].
  set (hits := collect_hits ieq _ lines).
  set (keep := expand_hits (py_len lines) hits radius).
  assert (0 ≤ radius → ∀ h, h ∈ hits → h ∈ keep) as Hkept.
  { intros Hr h Hh. apply elem_of_expand_hits. exists h. split; [done|].
    apply collect_hits_in_range in Hh. unfold in_window. lia. }
  split; [done|]. split; [|split; [|apply collect_hits_length]].
  - intros Hr. unfold py_len.
    rewrite <- (size_list_to_set (C := gset Z) hits)
      by apply StronglySorted_lt_NoDup, collect_hits_sorted.
    apply inj_le, subseteq_size. intros h Hh%elem_of_list_to_set. auto.
  - unfold py_len. rewrite <- Nat2Z.id at 1.
    replace (length lines) with (size (list_to_set (C := gset Z)
                                         (seqZ 0 (py_len lines)))).
    + rewrite Nat2Z.id. apply inj_le, subseteq_size.
      intros j Hj%expand_hits_in_range.
      apply elem_of_list_to_set, elem_of_seqZ. lia.
    + rewrite size_list_to_set by apply NoDup_seqZ.
      rewrite length_seqZ. unfold py_len. lia.
Qed.

Lemma py_sorted_empty : py_sorted ∅ = [].
Proof. unfold py_sorted. by rewrite elements_empty. Qed.

(** A keep set that holds every position lists them all, in order. *)
Lemma py_sorted_all (keep : gset Z) (n : Z) :
  (∀ j, j ∈ keep ↔ 0 ≤ j < n) → py_sorted keep = seqZ 0 n.
Proof.
  intros Hall. apply sorted_same_elements.
  - apply py_sorted_increasing.
  - apply seqZ_increasing.
  - intros j. rewrite elem_of_py_sorted, elem_of_seqZ, Hall. lia.
Qed.

(** A larger keep set gives a longer uncapped result, with the lines of
    the smaller one in it, in order. *)
Lemma py_sorted_sublist (keep keep' : gset Z) :
  keep ⊆ keep' → py_sorted keep `sublist_of` py_sorted keep'.
Proof.
  intros Hsub. apply sorted_subset_sublist; [apply py_sorted_increasing..|].
  intros j. rewrite !elem_of_py_sorted. apply Hsub.
Qed.

Lemma collect_hits_ext (ps ps' : list Re.pattern) (lines : list pystr) :
  (∀ line, any_search ieq ps line = any_search ieq ps' line) →
  collect_hits ieq ps lines = collect_hits ieq ps' lines.
Proof.
  intros Hext. rewrite !collect_hits_filter. f_equal.
  apply list_filter_iff. intros il. by rewrite Hext.
Qed.

(** Everything a call returns is determined by the hits, through the keep
    set. *)
Lemma filter_lines_from_hits (lines tokens : list pystr)
    (radius max_lines : Z) :
  tokens ≠ [] →
  let hits := collect_hits ieq
                ((λ tok, Re.Pattern (Re.literal_items tok) true) <$> tokens)
                lines in
  let full := (λ i, rstrip_nl (default [] (lines !! Z.to_nat i)))
                <$> py_sorted (expand_hits (py_len lines) hits radius) in
  filter_lines_with_context ieq lines tokens radius max_lines
  = Some (if negb (max_lines =? 0) && (max_lines <? py_len full)
          then py_slice_to full max_lines else full,
          py_len hits).
Proof.
  intros Hne hits full.
  destruct (filter_lines_unfold ieq lines tokens radius max_lines)
    as (hits' & keep' & full' & Hhits & Hkeep & _ & Hall & Hres).
  rewrite hit_index_list_eq in Hhits. apply (inj Some) in Hhits.
  rewrite keep_index_set_eq in Hkeep. apply (inj Some) in Hkeep.
  apply picked_fmap in Hall. subst hits' keep'. by rewrite Hres, Hall.
Qed.

(** X8: With a negative context nothing is kept: every call returns no line,
    while the hits are still counted. *)
Theorem negative_context_keeps_nothing (lines tokens : list pystr)
    (radius : Z) :
  radius < 0 →
  ∃ hit_idxs,
    hit_index_list ieq lines tokens = Some hit_idxs
    ∧ keep_index_set ieq lines tokens radius = Some ∅
    ∧ ∀ max_lines,
        filter_lines_with_context ieq lines tokens radius max_lines
        = Some ([], py_len hit_idxs).
Proof.
  intros Hr. eexists. split; [apply hit_index_list_eq|].
  set (hits := collect_hits ieq _ lines).
  assert (expand_hits (py_len lines) hits radius = ∅) as Hempty.
  { apply elem_of_equiv_empty_L. intros j (h & _ & Hw)%elem_of_expand_hits.
    unfold in_window in Hw. lia. }
  split; [by rewrite keep_index_set_eq; fold hits; rewrite Hempty|].
  intros max_lines.
  destruct (filter_lines_unfold ieq lines tokens radius max_lines)
    as (hits' & keep' & full' & Hhits & Hkeep & _ & Hall & Hres).
  rewrite hit_index_list_eq in Hhits. apply (inj Some) in Hhits.
  rewrite keep_index_set_eq in Hkeep. apply (inj Some) in Hkeep.
  fold hits in Hhits, Hkeep. subst hits' keep'.
  rewrite Hempty, py_sorted_empty in Hall. inversion Hall; subst.
  rewrite Hres. f_equal. f_equal.
  destruct (negb _ && _); [|done].
  destruct (py_slice_to_is_take (@nil pystr) max_lines) as [k ->].
  by rewrite take_nil.
Qed.

(** X9: Widening the context never loses a line: the keep set grows, and the
    uncapped result of the narrower context is a subsequence of that of
    the wider one. *)
Theorem wider_context_keeps_more (lines tokens : list pystr)
    (radius radius' : Z) :
  radius ≤ radius' →
  ∃ keep keep' full full',
    keep_index_set ieq lines tokens radius = Some keep
    ∧ keep_index_set ieq lines tokens radius' = Some keep'
    ∧ filtered_uncapped ieq lines tokens radius = Some full
    ∧ filtered_uncapped ieq lines tokens radius' = Some full'
    ∧ keep ⊆ keep'
    ∧ full `sublist_of` full'.
Proof.
  intros Hr.
  destruct (filtered_uncapped_eq lines tokens radius)
    as (keep & Hkeep & Hfull & _).
  destruct (filtered_uncapped_eq lines tokens radius')
    as (keep' & Hkeep' & Hfull' & _).
  assert (keep ⊆ keep') as Hsub.
  { rewrite keep_index_set_eq in Hkeep, Hkeep'.
    apply (inj Some) in Hkeep, Hkeep'. subst keep keep'.
    intros j (h & Hh & Hw)%elem_of_expand_hits.
    apply elem_of_expand_hits. exists h. split; [done|].
    unfold in_window in *. lia. }
  eexists keep, keep', _, _. do 4 (split; [done|]). split; [done|].
  by apply fmap_sublist, py_sorted_sublist.
Qed.

(** X10: A context that reaches both ends of the file from some hit keeps the
    whole file: with at least one hit and a context of at least
    [len(lines) - 1], the uncapped result is every line, and so is the
    result when the cap is zero or at least the number of lines. *)
Theorem context_covering_all_lines (lines tokens : list pystr)
    (radius : Z) :
  ∃ hit_idxs,
    hit_index_list ieq lines tokens = Some hit_idxs
    ∧ (hit_idxs ≠ [] → py_len lines - 1 ≤ radius →
       filtered_uncapped ieq lines tokens radius = Some (rstrip_nl <$> lines)
       ∧ ∀ max_lines,
           max_lines = 0 ∨ py_len lines ≤ max_lines →
           filter_lines_with_context ieq lines tokens radius max_lines
           = Some (rstrip_nl <$> lines, py_len hit_idxs)).
Proof.
  eexists. split; [apply hit_index_list_eq|].
  set (hits := collect_hits ieq _ lines). intros Hhit Hr.
  assert (py_sorted (expand_hits (py_len lines) hits radius)
          = seqZ 0 (py_len lines)) as Hsorted.
  { apply py_sorted_all. intros j. split; [apply expand_hits_in_range|].
    intros Hj. apply elem_of_expand_hits.
    destruct hits as [|h hits'] eqn:Hh; [done|]. exists h.
    assert (h ∈ hits) as Hin by (rewrite Hh; by left).
    split; [by rewrite <- Hh|]. apply collect_hits_in_range in Hin.
    unfold in_window. lia. }
  assert (tokens ≠ []) as Hne.
  { intros ->. subst hits. by rewrite collect_hits_no_patterns in Hhit. }
  split.
  - destruct (filtered_uncapped_eq lines tokens radius)
      as (keep & Hkeep & Hfull & _).
    rewrite keep_index_set_eq in Hkeep. apply (inj Some) in Hkeep.
    fold hits in Hkeep. subst keep.
    by rewrite Hfull, Hsorted, pick_all_lines.
  - intros max_lines Hmax.
    rewrite filter_lines_from_hits by done. cbv zeta. fold hits.
    rewrite Hsorted, pick_all_lines. do 2 f_equal.
    unfold py_len at 1. rewrite length_fmap. fold (py_len lines).
    destruct Hmax as [->|Hmax]; [done|].
    destruct (Z.ltb_spec max_lines (py_len lines)) as [?|_]; [lia|].
    by rewrite andb_false_r.
Qed.

(** X11: The safety cap always leaves a prefix of the uncapped result, never
    longer than the file.  A positive cap leaves its first [max_lines]
    entries, all of them if there are fewer; a negative cap drops the last
    [- max_lines] entries. *)
Theorem cap_takes_a_prefix (lines tokens : list pystr)
    (radius max_lines : Z) :
  ∃ full filtered hit_count,
    filtered_uncapped ieq lines tokens radius = Some full
    ∧ filter_lines_with_context ieq lines tokens radius max_lines
      = Some (filtered, hit_count)
    ∧ filtered `prefix_of` full
    ∧ py_len filtered ≤ py_len lines
    ∧ (0 < max_lines →
       filtered = take (Z.to_nat max_lines) full
       ∧ py_len filtered ≤ max_lines)
    ∧ (max_lines < 0 →
       filtered = take (length full - Z.to_nat (- max_lines)) full).
Proof.
  destruct (filter_lines_unfold ieq lines tokens radius max_lines)
    as (hits & keep & full & _ & _ & Hfull & Hall & Hres).
  eexists full, _, _. split; [done|]. split; [exact Hres|].
  assert (length full ≤ length lines)%nat as Hlen.
  { pose proof (picked_sublist lines _ _ (py_sorted_increasing keep) Hall)
      as Hsub.
    apply sublist_length in Hsub. by rewrite length_fmap in Hsub. }
  split; [|split; [|split]].
  - destruct (negb _ && _); [|done].
    destruct (py_slice_to_is_take full max_lines) as [k ->].
    apply prefix_take.
  - destruct (negb _ && _); [|unfold py_len; lia].
    destruct (py_slice_to_is_take full max_lines) as [k ->].
    unfold py_len. rewrite length_take. lia.
  - intros Hpos. destruct (Z.eqb_spec max_lines 0) as [?|_]; [lia|].
    cbn [negb andb].
    destruct (Z.ltb_spec max_lines (py_len full)) as [Hcut|Hfit].
    + rewrite py_slice_to_take by lia. split; [done|].
      unfold py_len. rewrite length_take. lia.
    + unfold py_len in *. rewrite take_ge by lia. split; [done|lia].
  - intros Hneg. destruct (Z.eqb_spec max_lines 0) as [?|_]; [lia|].
    destruct (Z.ltb_spec max_lines (py_len full)) as [_|Hge].
    + cbn [negb andb]. apply py_slice_to_neg. lia.
    + pose proof (py_len_nonneg full). lia.
Qed.

(** X12: The result depends on the tokens only as a set: their order and
    repetitions do not matter. *)
Theorem tokens_as_a_set (lines tokens tokens' : list pystr)
    (radius max_lines : Z) :
  (∀ tok, tok ∈ tokens ↔ tok ∈ tokens') →
  filter_lines_with_context ieq lines tokens radius max_lines
  = filter_lines_with_context ieq lines tokens' radius max_lines.
Proof.
  intros Hsame.
  destruct (decide (tokens = [])) as [->|Hne].
  { destruct tokens' as [|tok ?]; [done|].
    by destruct (not_elem_of_nil tok); apply Hsame; left. }
  assert (tokens' ≠ []) as Hne'.
  { intros ->. destruct tokens as [|tok ?]; [done|].
    by destruct (not_elem_of_nil tok); apply Hsame; left. }
  rewrite !filter_lines_from_hits by done. cbv zeta.
  rewrite (collect_hits_ext _
             ((λ tok, Re.Pattern (Re.literal_items tok) true) <$> tokens'));
    [done|].
  intros line. apply eq_true_iff_eq. rewrite !any_search_literal.
  by setoid_rewrite Hsame.
Qed.

(** X13: More tokens give more hits and more lines: with every token of
    [tokens] among [tokens'], the hits and the keep set of the one are among
    those of the other, and the uncapped result of the one is a subsequence
    of that of the other. *)
Theorem more_tokens_more_lines (lines tokens tokens' : list pystr)
    (radius : Z) :
  (∀ tok, tok ∈ tokens → tok ∈ tokens') →
  ∃ hit_idxs hit_idxs' keep keep' full full',
    hit_index_list ieq lines tokens = Some hit_idxs
    ∧ hit_index_list ieq lines tokens' = Some hit_idxs'
    ∧ keep_index_set ieq lines tokens radius = Some keep
    ∧ keep_index_set ieq lines tokens' radius = Some keep'
    ∧ filtered_uncapped ieq lines tokens radius = Some full
    ∧ filtered_uncapped ieq lines tokens' radius = Some full'
    ∧ (∀ h, h ∈ hit_idxs → h ∈ hit_idxs')
    ∧ keep ⊆ keep'
    ∧ full `sublist_of` full'.
Proof.
  intros Hsub.
  destruct (filtered_uncapped_eq lines tokens radius)
    as (keep & Hkeep & Hfull & _).
  destruct (filtered_uncapped_eq lines tokens' radius)
    as (keep' & Hkeep' & Hfull' & _).
  eexists _, _, keep, keep', _, _.
  split; [apply hit_index_list_eq|]. split; [apply hit_index_list_eq|].
  do 4 (split; [done|]).
  assert (∀ h, h ∈ collect_hits ieq
                  ((λ tok, Re.Pattern (Re.literal_items tok) true)
                     <$> tokens) lines
               → h ∈ collect_hits ieq
                  ((λ tok, Re.Pattern (Re.literal_items tok) true)
                     <$> tokens') lines) as Hhits.
  { intros h. rewrite !elem_of_collect_hits.
    intros (Hh & line & Hline & Hany). split; [done|].
    exists line. split; [done|]. apply any_search_literal.
    apply any_search_literal in Hany as (tok & Htok & Hci). eauto. }
  assert (keep ⊆ keep') as Hkeeps.
  { rewrite keep_index_set_eq in Hkeep, Hkeep'.
    apply (inj Some) in Hkeep, Hkeep'. subst keep keep'.
    intros j (h & Hh & Hw)%elem_of_expand_hits.
    apply elem_of_expand_hits. eauto. }
  split; [done|]. split; [done|].
  by apply fmap_sublist, py_sorted_sublist.
Qed.

(** X14: An empty token matches everywhere: if the token list holds the empty
    string, every line is a hit, and with a context that is not negative
    the uncapped result is every line. *)
Theorem empty_token_hits_every_line (lines tokens : list pystr)
    (radius : Z) :
  [] ∈ tokens →
  hit_index_list ieq lines tokens = Some (seqZ 0 (py_len lines))
  ∧ (∀ max_lines, ∃ filtered,
       filter_lines_with_context ieq lines tokens radius max_lines
       = Some (filtered, py_len lines))
  ∧ (0 ≤ radius →
     filtered_uncapped ieq lines tokens radius = Some (rstrip_nl <$> lines)).
Proof.
  intros Hin. rewrite hit_index_list_eq.
  set (hits := collect_hits ieq _ lines).
  assert (hits = seqZ 0 (py_len lines)) as Hhits.
  { apply sorted_same_elements;
      [apply collect_hits_sorted|apply seqZ_increasing|].
    intros j. rewrite elem_of_seqZ. split; [apply collect_hits_in_range|].
    intros Hj. apply elem_of_collect_hits. split; [lia|].
    destruct (lookup_lt_is_Some_2 lines (Z.to_nat j)) as [line Hline].
    { unfold py_len in Hj. lia. }
    exists line. split; [done|]. apply any_search_literal.
    exists []. split; [done|]. exists [], [], line. split; [done|constructor]. }
  split; [by rewrite Hhits|]. split.
  - intros max_lines. eexists. rewrite filter_lines_from_hits.
    + cbv zeta. fold hits. rewrite Hhits. do 2 f_equal.
      unfold py_len. rewrite length_seqZ. lia.
    + intros ->. by apply not_elem_of_nil in Hin.
  - intros Hr.
    destruct (filtered_uncapped_eq lines tokens radius)
      as (keep & Hkeep & Hfull & _).
    rewrite keep_index_set_eq in Hkeep. apply (inj Some) in Hkeep.
    fold hits in Hkeep. subst keep. rewrite Hfull.
    rewrite (py_sorted_all _ (py_len lines)); [by rewrite pick_all_lines|].
    intros j. split; [apply expand_hits_in_range|]. intros Hj.
    apply elem_of_expand_hits. exists j. rewrite Hhits, elem_of_seqZ.
    unfold in_window. lia.
Qed.

(** X15: With a context of zero the kept lines are exactly the hit lines: the
    uncapped result has one entry per hit, in order, and each entry is a
    line in which some token occurs. *)
Theorem zero_context_keeps_the_hits (lines tokens : list pystr) :
  ∃ hit_idxs full,
    hit_index_list ieq lines tokens = Some hit_idxs
    ∧ filtered_uncapped ieq lines tokens 0 = Some full
    ∧ Forall2 (λ h out,
                 ∃ line, lines !! Z.to_nat h = Some line
                         ∧ out = rstrip_nl line
                         ∧ ∃ tok, tok ∈ tokens ∧ ci_substring ieq tok line)
        hit_idxs full
    ∧ ∀ max_lines,
        max_lines = 0 ∨ py_len hit_idxs ≤ max_lines →
        filter_lines_with_context ieq lines tokens 0 max_lines
        = Some (full, py_len full).
Proof.
  destruct (filter_lines_unfold ieq lines tokens 0 0)
    as (hits & keep & full & Hhits & Hkeep & Hfull & Hall & _).
  exists hits, full. do 2 (split; [done|]).
  assert (py_sorted keep = hits) as Hsorted.
  { rewrite hit_index_list_eq in Hhits. apply (inj Some) in Hhits.
    rewrite keep_index_set_eq in Hkeep. apply (inj Some) in Hkeep.
    rewrite Hhits in Hkeep. subst keep.
    apply sorted_same_elements;
      [apply py_sorted_increasing
      |rewrite <- Hhits; apply collect_hits_sorted|].
    intros j. rewrite elem_of_py_sorted, elem_of_expand_hits. split.
    - intros (h & Hh & Hw). pose proof Hh as Hrange.
      rewrite <- Hhits in Hrange. apply collect_hits_in_range in Hrange.
      unfold in_window in Hw. by replace j with h by lia.
    - intros Hj. exists j. split; [done|].
      rewrite <- Hhits in Hj. apply collect_hits_in_range in Hj.
      unfold in_window. lia. }
  rewrite Hsorted in Hall.
  assert (length full = length hits) as Hlen
    by (symmetry; by eapply Forall2_length).
  split.
  - rewrite hit_index_list_eq in Hhits. apply (inj Some) in Hhits.
    eapply Forall2_impl;
      [apply (Forall2_with_left (λ h, h ∈ hits)); [|exact Hall]|].
    { apply Forall_forall. auto. }
    intros h out (Hh & _ & line & Hline & ->). simpl in Hh.
    exists line. split; [done|]. split; [done|].
    rewrite <- Hhits in Hh.
    apply elem_of_collect_hits in Hh as (_ & line' & Hline' & Hany).
    rewrite Hline in Hline'. injection Hline' as <-.
    by apply any_search_literal.
  - intros max_lines Hmax.
    destruct (filter_lines_unfold ieq lines tokens 0 max_lines)
      as (hits' & keep' & full' & Hhits' & _ & Hfull' & _ & Hres).
    rewrite Hhits in Hhits'. injection Hhits' as <-.
    rewrite Hfull in Hfull'. injection Hfull' as <-.
    rewrite Hres. unfold py_len in *. rewrite Hlen. do 2 f_equal.
    destruct Hmax as [->|Hmax]; [done|].
    destruct (Z.ltb_spec max_lines (Z.of_nat (length hits))) as [?|_]; [lia|].
    by rewrite andb_false_r.
Qed.

Lemma size_add_all (keep : gset Z) (l : list Z) :
  (size (foldl (λ keep j, {[j]} ∪ keep) keep l) ≤ size keep + length l)%nat.
Proof.
  revert keep. induction l as [|x l IH]; intros keep; simpl; [lia|].
  etrans; [apply IH|]. rewrite size_union_alt, size_singleton.
  assert (size (keep ∖ {[x]}) ≤ size keep)%nat
    by (apply subseteq_size; intros y Hy%elem_of_difference; tauto).
  lia.
Qed.

Lemma size_expand_from (n : Z) (hits : list Z) (radius : Z) (keep : gset Z) :
  0 ≤ radius →
  Z.of_nat (size (foldl (λ keep i,
               let start := Z.max 0 (i - radius) in
               let end_ := Z.min (n - 1) (i + radius) in
               foldl (λ keep j, {[j]} ∪ keep) keep (py_range start (end_ + 1)))
            keep hits))
  ≤ Z.of_nat (size keep) + py_len hits * (2 * radius + 1).
Proof.
  intros Hr. revert keep. induction hits as [|h hits IH]; intros keep.
  - simpl. unfold py_len. simpl. lia.
  - cbn [foldl]. etrans; [apply IH|]. cbv zeta.
    pose proof (size_add_all keep
                  (py_range (Z.max 0 (h - radius))
                     (Z.min (n - 1) (h + radius) + 1))) as Hadd.
    unfold py_range in Hadd. rewrite length_seqZ in Hadd.
    unfold py_range, py_len. cbn [length]. nia.
Qed.

(** X16: The context adds a bounded number of lines: with a context that is not
    negative, at most [2 * context + 1] lines are kept per hit. *)
Theorem context_adds_bounded_lines (lines tokens : list pystr) (radius : Z) :
  0 ≤ radius →
  ∃ hit_idxs keep,
    hit_index_list ieq lines tokens = Some hit_idxs
    ∧ keep_index_set ieq lines tokens radius = Some keep
    ∧ Z.of_nat (size keep) ≤ py_len hit_idxs * (2 * radius + 1).
Proof.
  intros Hr. eexists _, _. split; [apply hit_index_list_eq|].
  split; [apply keep_index_set_eq|]. unfold expand_hits.
  etrans; [by apply size_expand_from|]. rewrite size_empty. lia.
Qed.

End filter_more.

Lemma hits_are_kept_witness :
  0 ≤ 1
  ∧ ∃ hit_idxs keep,
      hit_index_list ascii_ieq scenario_lines [lit "SVC1"] = Some hit_idxs
      ∧ keep_index_set ascii_ieq scenario_lines [lit "SVC1"] 1 = Some keep
      ∧ (∀ h, h ∈ hit_idxs → h ∈ keep)
      ∧ py_len hit_idxs ≤ Z.of_nat (size keep).
Proof.
  split; [lia|].
  destruct (hits_are_kept ascii_ieq scenario_lines [lit "SVC1"] 1)
    as (hits & keep & Hh & Hk & Hin & Hle & _).
  exists hits, keep. split; [exact Hh|]. split; [exact Hk|].
  split; [apply Hin; lia|apply Hle; lia].
Defined.

(** ** Lines of an uploaded text *)

Lemma splitlines_from_no_break (n : nat) (s cur : pystr) :
  (length s ≤ n)%nat →
  Forall (λ c, is_linebreak c = false) cur →
  Forall (Forall (λ c, is_linebreak c = false)) (splitlines_from s cur).
Proof.
  revert s cur. induction n as [|n IH]; intros s cur Hlen Hcur.
  { destruct s; [|simpl in Hlen; lia]. simpl. destruct cur; [constructor|].
    constructor; [by apply Forall_reverse|constructor]. }
  assert (Forall (λ c, is_linebreak c = false) (reverse cur)) as Hrev
    by (by apply Forall_reverse).
  destruct s as [|c s].
  { simpl. destruct cur; [constructor|]. constructor; [done|constructor]. }
  simpl in Hlen. cbn [splitlines_from].
  destruct (c =? 13)%N.
  - destruct s as [|d s'].
    + constructor; [done|]. apply IH; [simpl; lia|constructor].
    + simpl in Hlen.
      destruct (d =? 10)%N; (constructor; [done|]);
        (apply IH; [simpl; lia|constructor]).
  - destruct (is_linebreak c) eqn:Hc.
    + constructor; [done|]. apply IH; [lia|constructor].
    + apply IH; [lia|by constructor].
Qed.

(** No line of [splitlines] holds a line break. *)
Lemma splitlines_no_break (s : pystr) :
  Forall (Forall (λ c, is_linebreak c = false)) (splitlines s).
Proof. by apply (splitlines_from_no_break (length s)). Qed.

(** A line without a newline is left as it is. *)
Lemma rstrip_nl_id (line : pystr) :
  Forall (λ c, is_linebreak c = false) line → rstrip_nl line = line.
Proof.
  intros Hline. apply rstrip_with_id. intros c Hc.
  apply last_Some in Hc as [l' ->].
  rewrite Forall_app, Forall_singleton in Hline. destruct Hline as [_ Hc].
  destruct (N.eqb_spec 10 c) as [<-|]; [by vm_compute in Hc|done].
Qed.

Lemma rstrip_nl_splitlines (s : pystr) :
  rstrip_nl <$> splitlines s = splitlines s.
Proof.
  pose proof (splitlines_no_break s) as Hall.
  induction Hall as [|line lines Hline _ IH]; [done|].
  by rewrite fmap_cons, IH, rstrip_nl_id.
Qed.

Section script_more.

Variable ieq : N → N → bool.
Variable repr_str : pystr → pystr.
Variable format_prompt : pystr → list pystr → pystr → option pystr.
Variable service : list event → pystr → pystr → option pystr.

(** Every call returns a subsequence of the lines without their trailing
    newlines. *)
Lemma filter_lines_sublist (lines tokens : list pystr)
    (radius max_lines : Z) :
  ∃ filtered hit_count,
    filter_lines_with_context ieq lines tokens radius max_lines
    = Some (filtered, hit_count)
    ∧ filtered `sublist_of` (rstrip_nl <$> lines).
Proof.
  destruct (filter_lines_unfold ieq lines tokens radius max_lines)
    as (hits & keep & full & _ & _ & _ & Hall & Hres).
  eexists _, _. split; [exact Hres|].
  pose proof (picked_sublist lines _ _ (py_sorted_increasing keep) Hall)
    as Hsub.
  destruct (negb _ && _); [|done].
  destruct (py_slice_to_is_take full max_lines) as [k ->].
  etrans; [|exact Hsub]. apply sublist_take.
Qed.

(** X17: The lines the script filters come from [splitlines], so they hold no
    line break and nothing is stripped from them: the filtered lines are
    lines of the uploaded text, unchanged and in their order. *)
Theorem filtered_lines_are_verbatim (text : pystr) (tokens : list pystr)
    (radius max_lines : Z) :
  ∃ filtered hit_count,
    filter_lines_with_context ieq (splitlines text) tokens radius max_lines
    = Some (filtered, hit_count)
    ∧ filtered `sublist_of` splitlines text
    ∧ Forall (Forall (λ c, is_linebreak c = false)) filtered.
Proof.
  destruct (filter_lines_sublist (splitlines text) tokens radius max_lines)
    as (filtered & hits & Hres & Hsub).
  rewrite rstrip_nl_splitlines in Hsub.
  exists filtered, hits. split; [done|]. split; [done|].
  apply Forall_forall. intros line Hline.
  pose proof (splitlines_no_break text) as Hall.
  rewrite Forall_forall in Hall. apply Hall.
  by eapply elem_of_sublist.
Qed.

(** ** The calls of a run *)

(** The synthesis prompt is always built. *)
Lemma synthesis_prompt_some (target_services outs : list pystr) :
  is_Some (synthesis_prompt repr_str target_services outs).
Proof.
  unfold synthesis_prompt. rewrite joined_blocks. cbn [mbind option_bind].
  rewrite format_synthesis. eauto.
Qed.

(** What Pass 1 leaves, however it ends: the calls it made, each with the
    prompt of its chunk, in the order of the chunks; on success one trimmed
    answer per chunk; on failure either a template that does not format or
    a call, the last one made, that raised. *)
Lemma pass1_trace (template : pystr) (target_services : list pystr)
    (model : pystr) (todo : list (Z * pystr)) (acc : list pystr)
    (log log' : list event) (r : halt + list pystr) :
  pass1 format_prompt service template target_services model todo acc log
  = (r, log') →
  ∃ prompts,
    log' = log ++ (Called model <$> prompts)
    ∧ Forall2 (λ chunk prompt,
                 format_prompt template target_services chunk
                 = Some prompt)
        (take (length prompts) (snd <$> todo)) prompts
    ∧ match r with
      | inr outs =>
        length prompts = length todo
        ∧ ∃ news, outs = acc ++ news ∧ length news = length todo
                  ∧ Forall (λ o, strip o = o) news
      | inl Stop => False
      | inl Raise =>
        (∃ chunk, chunk ∈ snd <$> todo
                  ∧ format_prompt template target_services chunk
                    = None)
        ∨ (∃ before p, log' = before ++ [Called model p]
                       ∧ service before model p = None)
      end.
Proof.
  revert acc log. induction todo as [|[idx chunk] todo IH]; intros acc log.
  - cbn [pass1]. unfold script_ret. intros [= <- <-]. exists [].
    simpl. rewrite app_nil_r. split; [done|]. split; [constructor|].
    split; [done|]. exists []. by rewrite app_nil_r.
  - cbn [pass1]. unfold script_bind at 1, or_raise.
    destruct (format_prompt template target_services chunk)
      as [prompt|] eqn:Hfmt.
    + unfold script_bind at 1, call_openai_responses.
      destruct (service log model prompt) as [resp|] eqn:Hsvc.
      * intros Hrest. apply IH in Hrest as (prompts & -> & Hall & Hr).
        exists (prompt :: prompts). split; [by rewrite <- app_assoc|].
        split; [simpl; by constructor|].
        destruct r as [[|]|outs]; [done| |].
        -- destruct Hr as [(c & Hc & Hn)|(before & p & Hb & Hs)].
           ++ left. exists c. split; [by right|done].
           ++ right. by exists before, p.
        -- destruct Hr as (Hlen & news & -> & Hlen' & Htrim).
           split; [simpl; lia|]. exists (strip resp :: news).
           split; [by rewrite <- app_assoc|]. split; [simpl; lia|].
           constructor; [apply strip_idempotent|done].
      * intros [= <- <-]. exists [prompt]. split; [done|].
        split; [simpl; constructor; [done|constructor]|].
        right. by exists log, prompt.
    + intros [= <- <-]. exists []. simpl. rewrite app_nil_r.
      split; [done|]. split; [constructor|]. left. exists chunk.
      split; [by left|done].
Qed.

(** How a run can end: stopped at a guard with nothing but notices added,
    or past every guard, in Pass 1 or in the synthesis. *)
Lemma run_cases (inp : inputs) (log log' : list event) (r : halt + report) :
  run ieq repr_str format_prompt service inp log = (r, log') →
  (r = inl Stop ∧ ∃ notices, log' = log ++ (Shown <$> notices))
  ∨ (is_Some (uploaded inp) ∧ api_key_of inp ≠ []
     ∧ parse_target_services (raw_services inp) ≠ []
     ∧ analyze inp = true
     ∧ ∃ ft prompts,
         filtered_text_of ieq inp = Some ft ∧ ft ≠ []
         ∧ Forall2 (λ chunk prompt,
                      format_prompt (prompt_template inp)
                        (parse_target_services (raw_services inp)) chunk
                      = Some prompt)
             (take (length prompts)
                (chunk_text_by_chars ft (chunk_size inp))) prompts
         ∧ match r with
           | inr rep =>
             chunks rep = chunk_text_by_chars ft (chunk_size inp)
             ∧ length prompts = length (chunks rep)
             ∧ length (chunk_outputs rep) = length (chunks rep)
             ∧ Forall (λ o, strip o = o) (chunk_outputs rep)
             ∧ strip (final_report rep) = final_report rep
             ∧ log' = log ++ (Called (strip (model inp))
                                <$> (prompts ++ [synth_prompt rep]))
           | inl Stop => False
           | inl Raise =>
             (∃ sent, log' = log ++ (Called (strip (model inp)) <$> sent))
             ∧ ((∃ chunk,
                   chunk ∈ chunk_text_by_chars ft (chunk_size inp)
                   ∧ format_prompt (prompt_template inp)
                       (parse_target_services (raw_services inp)) chunk
                     = None)
                ∨ (∃ before p,
                     log' = before ++ [Called (strip (model inp)) p]
                     ∧ service before (strip (model inp)) p = None))
           end).
Proof.
  unfold run, filtered_text_of.
  destruct (uploaded inp) as [text|]; cycle 1.
  { intros [= <- <-]. left. split; [done|]. by exists [InfoUploadFile]. }
  cbn [mbind option_bind].
  destruct (filter_lines_unfold ieq (splitlines text)
              (parse_target_services (raw_services inp))
              (context inp) (max_filtered_lines inp))
    as (hits & keep & full & _ & _ & _ & _ & Hres).
  rewrite Hres. clear Hres. cbn [mbind option_bind fst].
  set (filtered := if negb _ && _ then _ else _).
  unfold script_bind at 1, or_raise. cbn [fst].
  unfold script_bind at 1.
  case_bool_decide as Hkey.
  { unfold script_bind, show, st_stop. intros [= <- <-]. left.
    split; [done|]. by exists [ErrorNoApiKey]. }
  unfold script_ret at 1. unfold script_bind at 1.
  case_bool_decide as Hsvc.
  { unfold script_bind, show, st_stop. intros [= <- <-]. left.
    split; [done|]. by exists [ErrorNoTargetServices]. }
  unfold script_ret at 1. unfold script_bind at 1.
  destruct (analyze inp); cycle 1.
  { unfold st_stop. intros [= <- <-]. left. split; [done|].
    exists []. by rewrite app_nil_r. }
  unfold script_ret at 1. unfold script_bind at 1.
  case_bool_decide as Hempty.
  { unfold script_bind, show, st_stop. intros [= <- <-]. left.
    split; [done|]. by exists [WarningNoRelevantLines]. }
  unfold script_ret at 1. unfold script_bind at 1.
  set (ft := strip (join [10%N] filtered)) in *.
  destruct (pass1 _ _ _ _ _ _ _ _) as [r1 log1] eqn:Hpass.
  apply pass1_trace in Hpass as (prompts & -> & Hall & Hr1).
  rewrite py_enumerate_snd in Hall, Hr1. rewrite py_enumerate_length in Hr1.
  intros Hrun. right. do 4 (split; [done|]).
  exists ft, prompts. do 3 (split; [done|]).
  destruct r1 as [[|]|outs]; [done| |].
  - injection Hrun as <- <-. split; [by exists prompts|done].
  - destruct Hr1 as (Hlen & news & -> & Hlen' & Htrim). cbn [app] in Hrun.
    unfold script_bind at 1, or_raise in Hrun.
    destruct (synthesis_prompt_some
                (parse_target_services (raw_services inp)) news)
      as [prompt Hprompt].
    rewrite Hprompt in Hrun.
    unfold script_bind at 1, call_openai_responses in Hrun.
    destruct (service _ _ prompt) as [resp|] eqn:Hsvc'.
    + unfold script_ret in Hrun. injection Hrun as <- <-. cbn.
      do 4 (split; [done|]). split; [apply strip_idempotent|].
      by rewrite fmap_app, app_assoc.
    + injection Hrun as <- <-. split.
      * exists (prompts ++ [prompt]). by rewrite fmap_app, app_assoc.
      * right. by eexists _, prompt.
Qed.

(** X18: The service is called only past every guard: a call in a run means a
    file was uploaded, a key and a token were given, Analyze was pressed
    and the filtered text is not empty.  Every call names the trimmed model,
    and a run that stops has made no call. *)
Theorem service_called_only_past_guards (inp : inputs)
    (log log' : list event) (r : halt + report) :
  run ieq repr_str format_prompt service inp log = (r, log') →
  ∃ new,
    log' = log ++ new
    ∧ ((∃ m p, Called m p ∈ new) →
       is_Some (uploaded inp) ∧ api_key_of inp ≠ []
       ∧ parse_target_services (raw_services inp) ≠ []
       ∧ analyze inp = true
       ∧ ∃ ft, filtered_text_of ieq inp = Some ft ∧ ft ≠ [])
    ∧ (∀ m p, Called m p ∈ new → m = strip (model inp))
    ∧ (r = inl Stop → ∀ m p, Called m p ∉ new).
Proof.
  intros Hrun.
  apply run_cases in Hrun
    as [(-> & notices & ->)
       |(Hup & Hkey & Hsvc & Han & ft & prompts & Hft & Hne & _ & Hr)].
  - assert (∀ m p, Called m p ∉ Shown <$> notices) as Hnone.
    { intros m p (n & Hn & _)%list_elem_of_fmap. discriminate. }
    eexists. split; [done|]. split; [|split].
    + intros (m & p & Hin). by destruct (Hnone m p).
    + intros m p Hin. by destruct (Hnone m p).
    + intros _. apply Hnone.
  - assert (∃ sent, log' = log ++ (Called (strip (model inp)) <$> sent))
      as [sent ->].
    { destruct r as [[|]|rep]; [done|by destruct Hr|].
      destruct Hr as (_ & _ & _ & _ & _ & ->). eauto. }
    eexists. split; [done|]. split; [eauto 10|]. split.
    + by intros m p (q & [= -> _] & _)%list_elem_of_fmap.
    + intros ->. done.
Qed.

(** X19: A run that completes has made one call per chunk, in the order of the
    chunks, each with the Pass 1 prompt of its chunk, and then one call with
    the synthesis prompt: [len(chunks) + 1] calls in all, and nothing else
    was added to the events. *)
Theorem completed_run_calls (inp : inputs) (log log' : list event)
    (rep : report) :
  run ieq repr_str format_prompt service inp log = (inr rep, log') →
  ∃ prompts,
    log' = log ++ (Called (strip (model inp))
                     <$> (prompts ++ [synth_prompt rep]))
    ∧ Forall2 (λ chunk prompt,
                 format_prompt (prompt_template inp)
                   (parse_target_services (raw_services inp)) chunk
                 = Some prompt)
        (chunks rep) prompts
    ∧ length log' = (length log + length (chunks rep) + 1)%nat.
Proof.
  intros Hrun.
  apply run_cases in Hrun
    as [([=] & _)|(_ & _ & _ & _ & ft & prompts & _ & _ & Hall & Hr)].
  destruct Hr as (Hchunks & Hlen & _ & _ & _ & ->).
  exists prompts. split; [done|]. split.
  - rewrite <- Hchunks in Hall. by rewrite take_ge in Hall by lia.
  - rewrite length_app, length_fmap, length_app. simpl. lia.
Qed.

(** X20: In a run that completes the chunks put together are the filtered text,
    which is not empty; there is one answer per chunk, and the answers and
    the final report have no whitespace at either end. *)
Theorem completed_run_data (inp : inputs) (log log' : list event)
    (rep : report) :
  run ieq repr_str format_prompt service inp log = (inr rep, log') →
  ∃ filtered_text,
    filtered_text_of ieq inp = Some filtered_text
    ∧ filtered_text ≠ []
    ∧ concat (chunks rep) = filtered_text
    ∧ length (chunk_outputs rep) = length (chunks rep)
    ∧ Forall (λ out, strip out = out) (chunk_outputs rep)
    ∧ strip (final_report rep) = final_report rep.
Proof.
  intros Hrun.
  apply run_cases in Hrun
    as [([=] & _)|(Hup & _ & _ & _ & ft & prompts & Hft & Hne & _ & Hr)].
  destruct Hr as (Hchunks & _ & Hlen & Htrim & Hfinal & _).
  exists ft. do 2 (split; [done|]). split; [|done].
  assert (strip ft = ft) as Hstrip.
  { unfold filtered_text_of in Hft. destruct (uploaded inp); [|done].
    cbn [mbind option_bind] in Hft.
    destruct (filter_lines_with_context _ _ _ _ _); [|done].
    cbn [mbind option_bind] in Hft. injection Hft as <-.
    apply strip_idempotent. }
  rewrite Hchunks.
  destruct (Z.le_gt_cases (chunk_size inp) 0) as [Hk|Hk].
  - rewrite chunk_disable_nonpositive by (by rewrite ?Hstrip).
    simpl. by rewrite app_nil_r.
  - destruct (chunks_positive ft (chunk_size inp) Hk) as [-> [_ Hhi]];
      [by rewrite Hstrip|].
    rewrite Hstrip in *. apply pieces_concat.
    pose proof (py_len_nonneg ft). unfold py_len in *. nia.
Qed.

(** X21: When a run ends in an exception, either the Pass 1 template did not
    format for some chunk, or the service raised, and then that call is the
    last event: nothing is sent after a failed call. *)
Theorem failed_call_ends_the_run (inp : inputs) (log log' : list event) :
  run ieq repr_str format_prompt service inp log = (inl Raise, log') →
  ∃ filtered_text,
    filtered_text_of ieq inp = Some filtered_text
    ∧ ((∃ chunk,
          chunk ∈ chunk_text_by_chars filtered_text (chunk_size inp)
          ∧ format_prompt (prompt_template inp)
              (parse_target_services (raw_services inp)) chunk = None)
       ∨ (∃ before p,
            log' = before ++ [Called (strip (model inp)) p]
            ∧ service before (strip (model inp)) p = None)).
Proof.
  intros Hrun.
  apply run_cases in Hrun
    as [([=] & _)|(_ & _ & _ & _ & ft & prompts & Hft & _ & _ & _ & Hr)].
  by exists ft.
Qed.

End script_more.

(** ** The further properties at sample inputs *)

Lemma parse_target_services_nothing_witness :
  Forall (λ c, is_space c = true ∨ c = 44%N) (lit " , ,")
  ∧ parse_target_services (lit " , ,") = [].
Proof.
  assert (Forall (λ c, is_space c = true ∨ c = 44%N) (lit " , ,")) as Hall.
  { repeat constructor; (by left) || (by right). }
  split; [exact Hall|].
  exact (proj2 (parse_target_services_nothing (lit " , ,")) Hall).
Defined.

Lemma negative_context_keeps_nothing_witness :
  -1 < 0
  ∧ ∃ hit_idxs,
      hit_index_list ascii_ieq scenario_lines [lit "SVC1"] = Some hit_idxs
      ∧ filter_lines_with_context ascii_ieq scenario_lines [lit "SVC1"]
          (-1) 100
        = Some ([], py_len hit_idxs).
Proof.
  split; [lia|].
  destruct (negative_context_keeps_nothing ascii_ieq scenario_lines
              [lit "SVC1"] (-1)) as (hits & Hhits & _ & Hres); [lia|].
  exists hits. split; [exact Hhits|apply Hres].
Defined.

Lemma wider_context_keeps_more_witness :
  0 ≤ 1
  ∧ ∃ full full',
      filtered_uncapped ascii_ieq scenario_lines [lit "SVC1"] 0 = Some full
      ∧ filtered_uncapped ascii_ieq scenario_lines [lit "SVC1"] 1
        = Some full'
      ∧ full `sublist_of` full'.
Proof.
  split; [lia|].
  destruct (wider_context_keeps_more ascii_ieq scenario_lines
              [lit "SVC1"] 0 1)
    as (keep & keep' & full & full' & _ & _ & Hf & Hf' & _ & Hsub); [lia|].
  exists full, full'. split; [exact Hf|]. split; [exact Hf'|exact Hsub].
Defined.

Lemma context_covering_all_lines_witness :
  ∃ hit_idxs,
    hit_index_list ascii_ieq scenario_lines [lit "stop"] = Some hit_idxs
    ∧ hit_idxs ≠ []
    ∧ py_len scenario_lines - 1 ≤ 200
    ∧ filter_lines_with_context ascii_ieq scenario_lines [lit "stop"] 200
        20000
      = Some (rstrip_nl <$> scenario_lines, py_len hit_idxs).
Proof.
  destruct (context_covering_all_lines ascii_ieq scenario_lines
              [lit "stop"] 200) as (hits & Hhits & Hall).
  assert (hits ≠ []) as Hne.
  { pose proof Hhits as Heq. rewrite hit_index_list_eq in Heq.
    apply (inj Some) in Heq. rewrite <- Heq. vm_compute. discriminate. }
  assert (py_len scenario_lines - 1 ≤ 200) as Hr
    by (vm_compute; discriminate).
  exists hits. split; [exact Hhits|]. split; [exact Hne|].
  split; [exact Hr|].
  destruct (Hall Hne Hr) as [_ Hres]. apply Hres. right.
  vm_compute. discriminate.
Defined.

Lemma cap_takes_a_prefix_witness :
  (0 < 4
   ∧ ∃ full filtered hit_count,
       filtered_uncapped ascii_ieq scenario_lines [lit "SVC1"] 1 = Some full
       ∧ filter_lines_with_context ascii_ieq scenario_lines [lit "SVC1"] 1 4
         = Some (filtered, hit_count)
       ∧ filtered = take (Z.to_nat 4) full ∧ py_len filtered ≤ 4)
  ∧ (-2 < 0
     ∧ ∃ full filtered hit_count,
         filtered_uncapped ascii_ieq scenario_lines [lit "SVC1"] 1
         = Some full
         ∧ filter_lines_with_context ascii_ieq scenario_lines [lit "SVC1"]
             1 (-2)
           = Some (filtered, hit_count)
         ∧ filtered = take (length full - Z.to_nat (- -2)) full).
Proof.
  split; (split; [lia|]).
  - destruct (cap_takes_a_prefix ascii_ieq scenario_lines [lit "SVC1"] 1 4)
      as (full & filtered & hits & Hf & Hres & _ & _ & Hpos & _).
    exists full, filtered, hits. split; [exact Hf|]. split; [exact Hres|].
    apply Hpos. lia.
  - destruct (cap_takes_a_prefix ascii_ieq scenario_lines [lit "SVC1"] 1
                (-2))
      as (full & filtered & hits & Hf & Hres & _ & _ & _ & Hneg).
    exists full, filtered, hits. split; [exact Hf|]. split; [exact Hres|].
    apply Hneg. lia.
Defined.

Lemma tokens_as_a_set_witness :
  (∀ tok, tok ∈ [lit "start"; lit "stop"]
          ↔ tok ∈ [lit "stop"; lit "start"; lit "stop"])
  ∧ filter_lines_with_context ascii_ieq scenario_lines
      [lit "start"; lit "stop"] 0 100
    = filter_lines_with_context ascii_ieq scenario_lines
        [lit "stop"; lit "start"; lit "stop"] 0 100.
Proof.
  assert (∀ tok, tok ∈ [lit "start"; lit "stop"]
                 ↔ tok ∈ [lit "stop"; lit "start"; lit "stop"]) as Hsame.
  { intros tok. rewrite !elem_of_cons, !elem_of_nil. tauto. }
  split; [exact Hsame|].
  exact (tokens_as_a_set ascii_ieq scenario_lines _ _ 0 100 Hsame).
Defined.

Lemma more_tokens_more_lines_witness :
  (∀ tok, tok ∈ [lit "start"] → tok ∈ [lit "stop"; lit "start"])
  ∧ ∃ full full',
      filtered_uncapped ascii_ieq scenario_lines [lit "start"] 0 = Some full
      ∧ filtered_uncapped ascii_ieq scenario_lines
          [lit "stop"; lit "start"] 0 = Some full'
      ∧ full `sublist_of` full'.
Proof.
  assert (∀ tok, tok ∈ [lit "start"] → tok ∈ [lit "stop"; lit "start"])
    as Hsub.
  { intros tok. rewrite !elem_of_cons, !elem_of_nil. tauto. }
  split; [exact Hsub|].
  destruct (more_tokens_more_lines ascii_ieq scenario_lines _ _ 0 Hsub)
    as (h & h' & k & k' & full & full' & _ & _ & _ & _ & Hf & Hf' & _ & _
        & Hfull).
  exists full, full'. split; [exact Hf|]. split; [exact Hf'|exact Hfull].
Defined.

Lemma empty_token_hits_every_line_witness :
  [] ∈ [lit "nonexistent"; []]
  ∧ 0 ≤ 0
  ∧ hit_index_list ascii_ieq scenario_lines [lit "nonexistent"; []]
    = Some (seqZ 0 (py_len scenario_lines))
  ∧ filtered_uncapped ascii_ieq scenario_lines [lit "nonexistent"; []] 0
    = Some (rstrip_nl <$> scenario_lines).
Proof.
  assert ([] ∈ [lit "nonexistent"; []]) as Hin.
  { apply list_elem_of_further, list_elem_of_here. }
  destruct (empty_token_hits_every_line ascii_ieq scenario_lines
              [lit "nonexistent"; []] 0 Hin) as (Hhits & _ & Hfull).
  split; [exact Hin|]. split; [lia|]. split; [exact Hhits|].
  apply Hfull. lia.
Defined.

Lemma service_called_only_past_guards_witness :
  ∃ r log' new,
    run ascii_ieq quote_repr (plain_format_prompt quote_repr)
          counting_service (sample_inputs "svc1") []
    = (r, log')
    ∧ log' = [] ++ new
    ∧ (∃ m p, Called m p ∈ new)
    ∧ api_key_of (sample_inputs "svc1") ≠ []
    ∧ analyze (sample_inputs "svc1") = true.
Proof.
  eassert (run ascii_ieq quote_repr (plain_format_prompt quote_repr)
          counting_service
             (sample_inputs "svc1") [] = (_, _)) as Hrun
    by (vm_compute; reflexivity).
  destruct (service_called_only_past_guards ascii_ieq quote_repr
              (plain_format_prompt quote_repr) counting_service _ _ _ _ Hrun)
    as (new & Hlog & Hguards & _ & _).
  assert (∃ m p, Called m p ∈ new) as Hcalled.
  { simpl in Hlog. rewrite <- Hlog. eexists _, _. apply list_elem_of_here. }
  eexists _, _, new. split; [exact Hrun|]. split; [exact Hlog|].
  split; [exact Hcalled|].
  destruct (Hguards Hcalled) as (_ & Hkey & _ & Han & _).
  split; [exact Hkey|exact Han].
Defined.

Lemma completed_run_calls_witness :
  ∃ rep log' prompts,
    run ascii_ieq quote_repr (plain_format_prompt quote_repr)
      counting_service long_inputs [] = (inr rep, log')
    ∧ log' = [] ++ (Called (strip (model long_inputs))
                      <$> (prompts ++ [synth_prompt rep]))
    ∧ length log' = (length (@nil event) + length (chunks rep) + 1)%nat.
Proof.
  eassert (run ascii_ieq quote_repr (plain_format_prompt quote_repr)
             counting_service long_inputs [] = (inr _, _)) as Hrun
    by (vm_compute; reflexivity).
  destruct (completed_run_calls ascii_ieq quote_repr
              (plain_format_prompt quote_repr) counting_service
              _ _ _ _ Hrun) as (prompts & Hlog & _ & Hlen).
  eexists _, _, prompts. split; [exact Hrun|]. split; [exact Hlog|exact Hlen].
Defined.

Lemma completed_run_data_witness :
  ∃ rep log' filtered_text,
    run ascii_ieq quote_repr (plain_format_prompt quote_repr)
      counting_service (sample_inputs "svc1") [] = (inr rep, log')
    ∧ filtered_text_of ascii_ieq (sample_inputs "svc1") = Some filtered_text
    ∧ concat (chunks rep) = filtered_text
    ∧ Forall (λ out, strip out = out) (chunk_outputs rep).
Proof.
  eassert (run ascii_ieq quote_repr (plain_format_prompt quote_repr)
             counting_service (sample_inputs "svc1") [] = (inr _, _)) as Hrun
    by (vm_compute; reflexivity).
  destruct (completed_run_data ascii_ieq quote_repr
              (plain_format_prompt quote_repr) counting_service
              _ _ _ _ Hrun) as (ft & Hft & _ & Hcat & _ & Htrim & _).
  eexists _, _, ft. split; [exact Hrun|]. split; [exact Hft|].
  split; [exact Hcat|exact Htrim].
Defined.

Lemma failed_call_ends_the_run_witness :
  ∃ log' before p,
    run ascii_ieq quote_repr (plain_format_prompt quote_repr)
      failing_service long_inputs [] = (inl Raise, log')
    ∧ log' = before ++ [Called (strip (model long_inputs)) p]
    ∧ failing_service before (strip (model long_inputs)) p = None.
Proof.
  eassert (run ascii_ieq quote_repr (plain_format_prompt quote_repr)
             failing_service long_inputs [] = (inl Raise, _)) as Hrun
    by (vm_compute; reflexivity).
  destruct (failed_call_ends_the_run ascii_ieq quote_repr
              (plain_format_prompt quote_repr) failing_service
              _ _ _ Hrun) as (ft & Hft & [(chunk & Hin & Hnone)|Hlast]).
  - exfalso.
    assert (plain_format_prompt quote_repr (prompt_template long_inputs)
              (parse_target_services (raw_services long_inputs)) chunk
            ≠ None) as Hsome; [|by destruct Hsome].
    clear. vm_compute. discriminate.
  - destruct Hlast as (before & p & Hlog & Hfail).
    eexists _, before, p. split; [exact Hrun|]. split; [exact Hlog|exact Hfail].
Defined.

Lemma zero_context_keeps_the_hits_witness :
  ∃ hit_idxs full,
    hit_index_list ascii_ieq scenario_lines [lit "SVC1"] = Some hit_idxs
    ∧ filtered_uncapped ascii_ieq scenario_lines [lit "SVC1"] 0 = Some full
    ∧ (0 = 0 ∨ py_len hit_idxs ≤ 0)
    ∧ filter_lines_with_context ascii_ieq scenario_lines [lit "SVC1"] 0 0
      = Some (full, py_len full).
Proof.
  destruct (zero_context_keeps_the_hits ascii_ieq scenario_lines
              [lit "SVC1"]) as (hits & full & Hhits & Hfull & _ & Hres).
  exists hits, full. split; [exact Hhits|]. split; [exact Hfull|].
  split; [by left|]. apply Hres. by left.
Defined.

Lemma context_adds_bounded_lines_witness :
  0 ≤ 1
  ∧ ∃ hit_idxs keep,
      hit_index_list ascii_ieq scenario_lines [lit "SVC1"] = Some hit_idxs
      ∧ keep_index_set ascii_ieq scenario_lines [lit "SVC1"] 1 = Some keep
      ∧ Z.of_nat (size keep) ≤ py_len hit_idxs * (2 * 1 + 1).
Proof.
  split; [lia|].
  apply (context_adds_bounded_lines ascii_ieq scenario_lines [lit "SVC1"] 1).
  lia.
Defined.

